(** * A write-ahead journal with idempotent operations: main.py

    Shallow embedding of [main.py]: the journal file is a text, the
    [DataStore] methods are computations over the two files the program
    touches (the journal and its backup), an exception leaves the files as
    they were when it was raised.

    Python [str] values are lists of characters (code points below 256),
    Python [int] values are [Z]; the interpreter's bound on the number of
    digits that [str] and [int] convert is left out. Files are written as
    on a POSIX system, where a line feed is written as it is. *)

From Stdlib Require Import Ascii String.
From Stdlib Require Import List ZArith Lia Bool Arith.
From Stdlib Require Import DecimalString DecimalZ.
Import ListNotations.

Local Open Scope list_scope.
Local Open Scope Z_scope.

(** ** Python text *)

Module PyStr.

Definition str := list ascii.

Definition lit (s : string) : str := list_ascii_of_string s.

Fixpoint str_eqb (a b : str) : bool :=
  match a, b with
  | [], [] => true
  | x :: a', y :: b' => Ascii.eqb x y && str_eqb a' b'
  | _, _ => false
  end.

(** [s.startswith(p)] *)
Fixpoint startswith (p s : str) : bool :=
  match p, s with
  | [], _ => true
  | _ :: _, [] => false
  | x :: p', y :: s' => Ascii.eqb x y && startswith p' s'
  end.

(** [sub in s] *)
Fixpoint contains (sub s : str) : bool :=
  startswith sub s ||
  match s with
  | [] => false
  | _ :: s' => contains sub s'
  end.

(** [c.isspace()], for the code points a character can hold here:
    tab to carriage return, the four separators 28..31, the space,
    next-line (133) and the no-break space (160). *)
Definition isspace (c : ascii) : bool :=
  let n := nat_of_ascii c in
  ((9 <=? n) && (n <=? 13) || (28 <=? n) && (n <=? 32)
   || (n =? 133) || (n =? 160))%nat.

Fixpoint lstrip (s : str) : str :=
  match s with
  | [] => []
  | c :: s' => if isspace c then lstrip s' else s
  end.

Definition rstrip (s : str) : str := rev (lstrip (rev s)).

(** [s.strip()] *)
Definition strip (s : str) : str := rstrip (lstrip s).

(** [s.split()]: the maximal runs of characters that are not whitespace.
    [cur] holds the run being read, last character first. *)
Fixpoint split_go (cur : str) (s : str) : list str :=
  match s with
  | [] => match cur with [] => [] | _ => [rev cur] end
  | c :: s' =>
      if isspace c then
        match cur with
        | [] => split_go [] s'
        | _ => rev cur :: split_go [] s'
        end
      else split_go (c :: cur) s'
  end.

Definition split (s : str) : list str := split_go [] s.

(** [s.split(sep)] for a separator of one character: never empty. *)
Fixpoint split_on (sep : ascii) (s : str) : list str :=
  match s with
  | [] => [[]]
  | c :: s' =>
      if Ascii.eqb c sep then [] :: split_on sep s'
      else match split_on sep s' with
           | [] => [[c]]
           | h :: t => (c :: h) :: t
           end
  end.

(** [sep.join(parts)] for a separator of one character. *)
Fixpoint join (sep : ascii) (parts : list str) : str :=
  match parts with
  | [] => []
  | [p] => p
  | p :: rest => p ++ sep :: join sep rest
  end.

(** [str(n)] for an [int]. *)
Definition str_of_int (n : Z) : str :=
  list_ascii_of_string (NilZero.string_of_int (Z.to_int n)).

Definition is_digit (c : ascii) : bool :=
  let n := nat_of_ascii c in ((48 <=? n) && (n <=? 57))%nat.

(** The digits of an integer literal: single underscores are allowed
    between two digits and dropped. [after_digit] tells whether the
    previous character was a digit. *)
Fixpoint literal_digits (after_digit : bool) (s : str) : option str :=
  match s with
  | [] => if after_digit then Some [] else None
  | c :: s' =>
      if Ascii.eqb c "_" then
        if after_digit then literal_digits false s' else None
      else if is_digit c then option_map (cons c) (literal_digits true s')
      else None
  end.

Definition uint_of_digits (ds : str) : option Z :=
  option_map Z.of_uint (NilEmpty.uint_of_string (string_of_list_ascii ds)).

(** The whitespace that [int(s)] skips around a literal: tab to carriage
    return, the space, next-line (133) and the no-break space (160). The
    four separators 28..31 are whitespace for [str.isspace], [str.strip]
    and [str.split], and not for [int]. *)
Definition int_space (c : ascii) : bool :=
  let n := nat_of_ascii c in
  ((9 <=? n) && (n <=? 13) || (n =? 32) || (n =? 133) || (n =? 160))%nat.

Fixpoint int_lstrip (s : str) : str :=
  match s with
  | [] => []
  | c :: s' => if int_space c then int_lstrip s' else s
  end.

Definition int_strip (s : str) : str := rev (int_lstrip (rev (int_lstrip s))).

(** [int(s)] for a [str]: surrounding whitespace, an optional sign, then
    the digits. [None] stands for [ValueError]. *)
Definition int_of_str (s : str) : option Z :=
  let body (t : str) :=
    match literal_digits false t with
    | Some ds => uint_of_digits ds
    | None => None
    end in
  match int_strip s with
  | [] => None
  | c :: t =>
      if Ascii.eqb c "-" then option_map Z.opp (body t)
      else if Ascii.eqb c "+" then body t
      else body (c :: t)
  end.

End PyStr.

Import PyStr.

(** ** The constants of main.py *)

Definition BEGIN : str := lit "BEGIN".
Definition WRITE : str := lit "WRITE".
Definition READ : str := lit "READ".
Definition COMMIT : str := lit "COMMIT".
Definition ERROR : str := lit "ERROR".
Definition MOVE : str := lit "mov".
Definition WITHDRAW : str := lit "wit".
Definition DEPOSIT : str := lit "dep".
(** [ID_SEPARATOR = "_"]: a separator of one character. *)
Definition ID_SEPARATOR : ascii := "_"%char.
Definition NEWLINE : str := lit (String (ascii_of_nat 10) "").

Definition nl : ascii := ascii_of_nat 10.
Definition cr : ascii := ascii_of_nat 13.

(** ** Exceptions, files and computations *)

Inductive exn : Type :=
| ValueError
| TypeError
| IndexError
| FileNotFoundError.

Inductive result (A : Type) : Type :=
| Ok (a : A)
| Raise (e : exn).

Arguments Ok {A} a.
Arguments Raise {A} e.

(** The two files of a [DataStore]: the journal at [self.path], which
    [__init__] creates empty when it is missing, and the file at
    [self.backup_path()], which exists only while [recover] rewrites the
    journal. *)
Record files : Type := mkFiles {
  store : str;
  backup : option str
}.

(** The files after [DataStore(path)] on a path with no file. *)
Definition DataStore_init : files := mkFiles [] None.

(** A method: from the files to its outcome and the files it leaves.
    What was written before an exception stays written. *)
Definition M (A : Type) : Type := files -> result A * files.

Definition ret {A} (a : A) : M A := fun fs => (Ok a, fs).

Definition raise {A} (e : exn) : M A := fun fs => (Raise e, fs).

Definition bind {A B} (m : M A) (k : A -> M B) : M B :=
  fun fs =>
    match m fs with
    | (Ok a, fs') => k a fs'
    | (Raise e, fs') => (Raise e, fs')
    end.

Definition lift {A} (r : result A) : M A := fun fs => (r, fs).

Declare Scope py_scope.
Delimit Scope py_scope with py.
Notation "x <- m ;; k" := (bind m (fun x => k))
  (at level 61, m at next level, right associativity) : py_scope.
Notation "m ;;; k" := (bind m (fun _ => k))
  (at level 61, right associativity) : py_scope.
Local Open Scope py_scope.

(** The files a computation leaves, and its outcome. *)
Definition exec {A} (m : M A) (fs : files) : files := snd (m fs).
Definition eval {A} (m : M A) (fs : files) : result A := fst (m fs).

(** ** Reading the journal: text mode

    [open(path, "r")] reads with universal newlines: a carriage return,
    alone or before a line feed, is read as one line feed. *)
Fixpoint universal_newlines (s : str) : str :=
  match s with
  | [] => []
  | c :: s' =>
      if Ascii.eqb c cr then
        match s' with
        | c' :: s'' =>
            if Ascii.eqb c' nl then nl :: universal_newlines s''
            else nl :: universal_newlines s'
        | [] => [nl]
        end
      else c :: universal_newlines s'
  end.

(** The lines of a text, each with its line feed; the last one has none
    when the text does not end with one. [cur] is the line being read,
    last character first. *)
Fixpoint lines_go (cur : str) (s : str) : list str :=
  match s with
  | [] => match cur with [] => [] | _ => [rev cur] end
  | c :: s' =>
      if Ascii.eqb c nl then rev (c :: cur) :: lines_go [] s'
      else lines_go (c :: cur) s'
  end.

Definition splitlines (s : str) : list str := lines_go [] s.

(** [f.readlines()] on the journal. *)
Definition readlines : M (list str) :=
  fun fs => (Ok (splitlines (universal_newlines (store fs))), fs).

(** ** Log lines *)

Inductive logline : Type :=
| BeginLogLine (oid : str)
| WriteLogLine (dst : str) (amt : Z)
| ReadLogLine (dst : str) (amt : Z)
| CommitLogLine (err : option str).

(** The method [line()] of the four classes. *)
Definition line (l : logline) : str :=
  match l with
  | BeginLogLine oid => BEGIN ++ lit " " ++ oid ++ NEWLINE
  | WriteLogLine dst amt =>
      WRITE ++ lit " " ++ dst ++ lit " " ++ str_of_int amt ++ NEWLINE
  | ReadLogLine dst amt =>
      READ ++ lit " " ++ dst ++ lit " " ++ str_of_int amt ++ NEWLINE
  | CommitLogLine err =>
      COMMIT ++ match err with None => [] | Some e => lit " " ++ e end ++ NEWLINE
  end.

(** [DataStore.log]: append the line to the journal. *)
Definition log (l : logline) : M unit :=
  fun fs => (Ok tt, mkFiles (store fs ++ line l) (backup fs)).

(** ** Operations

    A timestamp is whatever the caller passed: an [int] ([time.time_ns()]
    in the script) or, for an operation rebuilt by [parse_op_from_id],
    a [str]. Accounts are [str]; [__init__] turns the amount into an [int]. *)

Inductive pyval : Type :=
| PyInt (n : Z)
| PyStr (s : str).

(** [str(x)] *)
Definition py_str (x : pyval) : str :=
  match x with
  | PyInt n => str_of_int n
  | PyStr s => s
  end.

(** [int(x)] *)
Definition py_int (x : pyval) : result Z :=
  match x with
  | PyInt n => Ok n
  | PyStr s =>
      match int_of_str s with
      | Some n => Ok n
      | None => Raise ValueError
      end
  end.

(** The objects of the three classes; [self.ds] is the files the methods
    run on. *)
Inductive op : Type :=
| MoveOp (ts : pyval) (src dst : str) (amt : Z)
| WithdrawOp (ts : pyval) (dst : str) (amt : Z)
| DepositOp (ts : pyval) (dst : str) (amt : Z).

(** The three [__init__]: [self.amt = int(amt)]. *)
Definition MoveOp_init (ts : pyval) (src dst : str) (amt : pyval) : result op :=
  match py_int amt with
  | Ok n => Ok (MoveOp ts src dst n)
  | Raise e => Raise e
  end.

Definition WithdrawOp_init (ts : pyval) (dst : str) (amt : pyval) : result op :=
  match py_int amt with
  | Ok n => Ok (WithdrawOp ts dst n)
  | Raise e => Raise e
  end.

Definition DepositOp_init (ts : pyval) (dst : str) (amt : pyval) : result op :=
  match py_int amt with
  | Ok n => Ok (DepositOp ts dst n)
  | Raise e => Raise e
  end.

(** The method [id()] of the three classes. *)
Definition id (o : op) : str :=
  match o with
  | MoveOp ts src dst amt =>
      join ID_SEPARATOR [MOVE; py_str ts; src; dst; str_of_int amt]
  | WithdrawOp ts dst amt =>
      join ID_SEPARATOR [WITHDRAW; py_str ts; dst; str_of_int amt]
  | DepositOp ts dst amt =>
      join ID_SEPARATOR [DEPOSIT; py_str ts; dst; str_of_int amt]
  end.

(** [DataStore.parse_op_from_id]: the parts after the first are the
    arguments of the constructor, which raises [TypeError] when their
    number is not its own. *)
Definition parse_op_from_id (oid : str) : result op :=
  let args := tl (split_on ID_SEPARATOR oid) in
  if startswith MOVE oid then
    match args with
    | [ts; src; dst; amt] => MoveOp_init (PyStr ts) src dst (PyStr amt)
    | _ => Raise TypeError
    end
  else if startswith WITHDRAW oid then
    match args with
    | [ts; dst; amt] => WithdrawOp_init (PyStr ts) dst (PyStr amt)
    | _ => Raise TypeError
    end
  else if startswith DEPOSIT oid then
    match args with
    | [ts; dst; amt] => DepositOp_init (PyStr ts) dst (PyStr amt)
    | _ => Raise TypeError
    end
  else Raise ValueError.

(** ** DataStore.read *)

(** The loop of [read] over [reversed(lines)]. *)
Fixpoint read_scan (dst : str) (rlines : list str) : result Z :=
  match rlines with
  | [] => Ok 0
  | l :: rest =>
      if startswith WRITE l then
        match split l with
        | [_; account; amt] =>
            if str_eqb account dst then
              match int_of_str amt with
              | Some n => Ok n
              | None => Raise ValueError
              end
            else read_scan dst rest
        | _ => Raise ValueError
        end
      else read_scan dst rest
  end.

Definition read (dst : str) : M Z :=
  lines <- readlines ;;
  lift (read_scan dst (rev lines)).

(** ** DataStore.already_committed *)

(** The loop of [already_committed]; [found] is [found_begin_with_oid]. *)
Fixpoint committed_scan (oid : str) (found : bool) (lines : list str) : bool :=
  match lines with
  | [] => false
  | l :: rest =>
      let l := strip l in
      let found := if contains oid l then true else found in
      if found && str_eqb l COMMIT then true
      else committed_scan oid found rest
  end.

Definition already_committed (o : op) : M bool :=
  lines <- readlines ;;
  ret (committed_scan (id o) false lines).

(** ** The three handle methods *)

(** [f"{ERROR}: insufficient funds: {curr} < {self.amt}"] *)
Definition insufficient_funds (curr amt : Z) : str :=
  ERROR ++ lit ": insufficient funds: " ++ str_of_int curr
        ++ lit " < " ++ str_of_int amt.

Definition MoveOp_handle (ts : pyval) (src dst : str) (amt : Z)
    (write_begin : bool) : M unit :=
  let self := MoveOp ts src dst amt in
  done <- already_committed self ;;
  if done then ret tt
  else
    (if write_begin then log (BeginLogLine (id self)) else ret tt) ;;;
    curr <- read src ;;
    log (ReadLogLine src curr) ;;;
    if curr <? amt then
      log (CommitLogLine (Some (insufficient_funds curr amt)))
    else
      log (WriteLogLine src (curr - amt)) ;;;
      curr <- read dst ;;
      log (ReadLogLine dst curr) ;;;
      log (WriteLogLine dst (curr + amt)) ;;;
      log (CommitLogLine None).

Definition WithdrawOp_handle (ts : pyval) (dst : str) (amt : Z)
    (write_begin : bool) : M unit :=
  let self := WithdrawOp ts dst amt in
  done <- already_committed self ;;
  if done then ret tt
  else
    (if write_begin then log (BeginLogLine (id self)) else ret tt) ;;;
    curr <- read dst ;;
    log (ReadLogLine dst curr) ;;;
    if curr <? amt then
      log (CommitLogLine (Some (insufficient_funds curr amt)))
    else
      log (WriteLogLine dst (curr - amt)) ;;;
      log (CommitLogLine None).

Definition DepositOp_handle (ts : pyval) (dst : str) (amt : Z)
    (write_begin : bool) : M unit :=
  let self := DepositOp ts dst amt in
  done <- already_committed self ;;
  if done then ret tt
  else
    (if write_begin then log (BeginLogLine (id self)) else ret tt) ;;;
    curr <- read dst ;;
    log (ReadLogLine dst curr) ;;;
    log (WriteLogLine dst (curr + amt)) ;;;
    log (CommitLogLine None).

(** [op.handle(write_begin)]: the method of the class of [op]. *)
Definition handle (o : op) (write_begin : bool) : M unit :=
  match o with
  | MoveOp ts src dst amt => MoveOp_handle ts src dst amt write_begin
  | WithdrawOp ts dst amt => WithdrawOp_handle ts dst amt write_begin
  | DepositOp ts dst amt => DepositOp_handle ts dst amt write_begin
  end.

(** The loop at the end of the script: [for op in ops: op.handle()]. *)
Fixpoint run_ops (ops : list op) : M unit :=
  match ops with
  | [] => ret tt
  | o :: rest => handle o true ;;; run_ops rest
  end.

(** ** DataStore.recover *)

(** [enumerate(lines)] *)
Definition enumerate {A} (l : list A) : list (nat * A) :=
  combine (seq 0 (List.length l)) l.

(** The loop that finds the last line starting with [BEGIN]. *)
Definition last_begin_idx (lines : list str) : option nat :=
  fold_left
    (fun acc p => if startswith BEGIN (snd p) then Some (fst p) else acc)
    (enumerate lines) None.

(** [with open(self.backup_path(), "w") as f: f.writelines(...)] *)
Definition write_backup (content : str) : M unit :=
  fun fs => (Ok tt, mkFiles (store fs) (Some content)).

(** [shutil.move(self.backup_path(), self.path)] *)
Definition move_backup : M unit :=
  fun fs =>
    match backup fs with
    | Some content => (Ok tt, mkFiles content None)
    | None => (Raise FileNotFoundError, fs)
    end.

(** The first part of [recover], up to the move of the backup: the
    journal is rewritten from the lines up to the last [BEGIN], and the
    result is these lines with the index of that [BEGIN]; [None] when no
    line starts with [BEGIN], where [recover] returns. *)
Definition recover_truncate : M (option (list str * nat)) :=
  lines <- readlines ;;
  match last_begin_idx lines with
  | None => ret None
  | Some last_begin_idx =>
      let lines := firstn (last_begin_idx + 1) lines in
      write_backup (concat (map (fun l => l ++ NEWLINE) lines)) ;;;
      move_backup ;;;
      ret (Some (lines, last_begin_idx))
  end.

(** [lines[last_begin_idx].split()[1]] *)
Definition begin_oid (lines : list str) (idx : nat) : result str :=
  match nth_error lines idx with
  | Some l =>
      match nth_error (split l) 1 with
      | Some oid => Ok oid
      | None => Raise IndexError
      end
  | None => Raise IndexError
  end.

Definition recover : M unit :=
  r <- recover_truncate ;;
  match r with
  | None => ret tt
  | Some (lines, last_begin_idx) =>
      oid <- lift (begin_oid lines last_begin_idx) ;;
      o <- lift (parse_op_from_id oid) ;;
      handle o false
  end.

(** ** Well-formed identifiers

    The journal's grammar separates the fields of a record by whitespace
    and the fields of an operation id by [ID_SEPARATOR]. *)

Definition no_space (s : str) : bool := forallb (fun c => negb (isspace c)) s.

(** Not empty and without whitespace: what [split()] returns as one field. *)
Definition is_token (s : str) : bool :=
  match s with [] => false | _ => no_space s end.

Definition no_sep (s : str) : bool :=
  forallb (fun c => negb (Ascii.eqb c ID_SEPARATOR)) s.

(** Without a line feed or a carriage return. *)
Definition one_line (s : str) : bool :=
  forallb (fun c => negb (Ascii.eqb c nl) && negb (Ascii.eqb c cr)) s.

(** Not empty, and neither the first nor the last character is whitespace. *)
Definition trimmed (s : str) : bool :=
  match s with
  | [] => false
  | c :: _ =>
      negb (isspace c) &&
      match rev s with [] => false | d :: _ => negb (isspace d) end
  end.

(** A record whose line is one whole line of the journal. *)
Definition wf_line (l : logline) : bool :=
  match l with
  | BeginLogLine oid => one_line oid
  | WriteLogLine dst _ => is_token dst
  | ReadLogLine dst _ => is_token dst
  | CommitLogLine None => true
  | CommitLogLine (Some e) => one_line e
  end.

(** An operation whose timestamp (as written in its id) and accounts are
    tokens. *)
Definition wf_op (o : op) : bool :=
  match o with
  | MoveOp ts src dst _ => is_token (py_str ts) && is_token src && is_token dst
  | WithdrawOp ts dst _ => is_token (py_str ts) && is_token dst
  | DepositOp ts dst _ => is_token (py_str ts) && is_token dst
  end.

(** An operation whose timestamp and accounts are free of [ID_SEPARATOR]. *)
Definition id_safe (o : op) : bool :=
  match o with
  | MoveOp ts src dst _ => no_sep (py_str ts) && no_sep src && no_sep dst
  | WithdrawOp ts dst _ => no_sep (py_str ts) && no_sep dst
  | DepositOp ts dst _ => no_sep (py_str ts) && no_sep dst
  end.

(** ** Journals of whole lines *)

(** The text is empty or ends with a line feed: what every [log] leaves. *)
Fixpoint ends_nl (s : str) : bool :=
  match s with
  | [] => true
  | [c] => Ascii.eqb c nl
  | _ :: s' => ends_nl s'
  end.

(** A line with its line feed and nothing else that ends a line. *)
Definition whole (l : str) : Prop :=
  exists body, l = body ++ [nl] /\ one_line body = true.

(** What [readlines] returns for a text. *)
Definition lines_of (s : str) : list str := splitlines (universal_newlines s).

(** The files whose journal holds these records and nothing else. *)
Definition journal (recs : list logline) : files :=
  mkFiles (concat (map line recs)) None.

(** The files after these records were logged. *)
Definition logged (fs : files) (recs : list logline) : files :=
  mkFiles (store fs ++ concat (map line recs)) (backup fs).

(** [[line+NEWLINE for line in lines]] joined, as [writelines] writes it. *)
Definition rewritten (ls : list str) : str :=
  concat (map (fun l => l ++ NEWLINE) ls).

(** Every line followed by an empty line: the lines of [rewritten]. *)
Definition spaced (ls : list str) : list str :=
  flat_map (fun l => [l; NEWLINE]) ls.

(** What [read] returns on a journal with these lines. *)
Definition balance (ls : list str) (a : str) : result Z := read_scan a (rev ls).

(** A journal of whole lines on which [read] returns for every account. *)
Definition readable (fs : files) : Prop :=
  ends_nl (store fs) = true /\ forall a, exists z, eval (read a) fs = Ok z.

(** ** The records of a run of handle *)

(** A [BEGIN] record. *)
Definition is_begin (l : logline) : bool :=
  match l with
  | BeginLogLine _ => true
  | _ => false
  end.

(** A [READ] or a [WRITE]. *)
Definition data_line (l : logline) : bool :=
  match l with
  | ReadLogLine _ _ | WriteLogLine _ _ => true
  | _ => false
  end.

(** The record is a [WRITE] for account [a]. *)
Definition writes_to (a : str) (l : logline) : bool :=
  match l with
  | WriteLogLine dst _ => str_eqb dst a
  | _ => false
  end.

(** The value of [found_begin_with_oid] once the loop of
    [already_committed] has read [ls] without returning. *)
Definition found_after (oid : str) (found : bool) (ls : list str) : bool :=
  fold_left (fun f l => if contains oid (strip l) then true else f) ls found.

(** The records the three handle methods append after the [BEGIN], and
    how they end, given what [read] returns when they start. In a move the
    second read sees the source's new balance when the two accounts are
    the same. That the methods do log these records is [handle_run]. *)
Definition body_records (o : op) (rd : str -> result Z)
  : list logline * result unit :=
  match o with
  | MoveOp _ src dst amt =>
      match rd src with
      | Ok curr =>
          if curr <? amt then
            ([ReadLogLine src curr;
              CommitLogLine (Some (insufficient_funds curr amt))], Ok tt)
          else
            match (if str_eqb src dst then Ok (curr - amt) else rd dst) with
            | Ok curr' =>
                ([ReadLogLine src curr; WriteLogLine src (curr - amt);
                  ReadLogLine dst curr'; WriteLogLine dst (curr' + amt);
                  CommitLogLine None], Ok tt)
            | Raise e =>
                ([ReadLogLine src curr; WriteLogLine src (curr - amt)], Raise e)
            end
      | Raise e => ([], Raise e)
      end
  | WithdrawOp _ dst amt =>
      match rd dst with
      | Ok curr =>
          if curr <? amt then
            ([ReadLogLine dst curr;
              CommitLogLine (Some (insufficient_funds curr amt))], Ok tt)
          else
            ([ReadLogLine dst curr; WriteLogLine dst (curr - amt);
              CommitLogLine None], Ok tt)
      | Raise e => ([], Raise e)
      end
  | DepositOp _ dst amt =>
      match rd dst with
      | Ok curr =>
          ([ReadLogLine dst curr; WriteLogLine dst (curr + amt);
            CommitLogLine None], Ok tt)
      | Raise e => ([], Raise e)
      end
  end.

(** The [BEGIN] of a run of [handle] that passes the guard. *)
Definition begin_records (o : op) (write_begin : bool) : list logline :=
  if write_begin then [BeginLogLine (id o)] else [].

(** All the records of a run of [handle] that passes the guard. *)
Definition handle_records (o : op) (write_begin : bool) (rd : str -> result Z)
  : list logline :=
  begin_records o write_begin ++ fst (body_records o rd).

(** ** The vocabulary of the specification *)

(** The text that a run added to the journal. *)
Definition appended (before after : files) : str :=
  skipn (List.length (store before)) (store after).

(** The run from [before] to [after] ended by logging a [COMMIT] without
    an error message. *)
Definition success_commit (before after : files) : bool :=
  match rev (lines_of (appended before after)) with
  | l :: _ => str_eqb l (line (CommitLogLine None))
  | [] => false
  end.

(** The signed amount an operation applies to an account when it commits:
    deposits and move-ins positive, withdrawals and move-outs negative. *)
Definition delta (o : op) (a : str) : Z :=
  match o with
  | MoveOp _ src dst amt =>
      (if str_eqb src a then - amt else 0) + (if str_eqb dst a then amt else 0)
  | WithdrawOp _ dst amt => if str_eqb dst a then - amt else 0
  | DepositOp _ dst amt => if str_eqb dst a then amt else 0
  end.

(** The account an operation takes money from, and how much. *)
Definition debited (o : op) : option (str * Z) :=
  match o with
  | MoveOp _ src _ amt => Some (src, amt)
  | WithdrawOp _ dst amt => Some (dst, amt)
  | DepositOp _ _ _ => None
  end.

(** The operation has no account to take money from, or [read] returns
    for that account a balance that covers the amount. *)
Definition covered (o : op) (fs : files) : bool :=
  match debited o with
  | Some (src, amt) =>
      match eval (read src) fs with
      | Ok curr => negb (curr <? amt)
      | Raise _ => false
      end
  | None => true
  end.

(** ** The ledger

    What a sequence of operations comes to, told from the operations
    alone and without the journal: which of them commit, and the sum of
    what those apply to an account. *)

(** The sum of the signed amounts that the operations apply to [a]. *)
Definition total (a : str) (done : list op) : Z :=
  fold_right Z.add 0 (map (fun o => delta o a) done).

(** The operation takes no money, or the balance of the account it takes
    money from covers the amount. *)
Definition affordable (o : op) (bal : str -> Z) : bool :=
  match debited o with
  | Some (src, amt) => negb (bal src <? amt)
  | None => true
  end.

(** The operations that opened a transaction so far, first one first,
    each with whether it committed. *)
Definition history : Type := list (op * bool).

(** Those that committed. *)
Definition committed_of (h : history) : list op := map fst (filter snd h).

(** An operation whose id holds [oid] opened a transaction, or [found]
    says one did before. *)
Definition marked (oid : str) (found : bool) (h : history) : bool :=
  fold_left (fun f e => f || contains oid (id (fst e))) h found.

(** An operation with id [oid] is taken for done: an operation whose id
    holds [oid] opened a transaction, and that one or a later one
    committed. *)
Fixpoint sealed (oid : str) (found : bool) (h : history) : bool :=
  match h with
  | [] => false
  | (o, ok) :: rest =>
      let found := found || contains oid (id o) in
      (found && ok) || sealed oid found rest
  end.

(** One more operation: nothing when it is taken for done; otherwise it
    opens a transaction, and commits when the balances, which are the
    totals of the operations committed so far, cover it. *)
Definition settle_one (h : history) (o : op) : history :=
  if sealed (id o) false h then h
  else h ++ [(o, affordable o (fun a => total a (committed_of h)))].

Definition settle (ops : list op) (h : history) : history :=
  fold_left settle_one ops h.

(** The operations of a sequence that commit, when the sequence starts
    with no operation begun. *)
Definition committed (ops : list op) : list op := committed_of (settle ops []).

(** The plain reading of which operations commit, for a sequence in which
    none is taken for done: those that the balance, the total of the ones
    committed before, covers. [done] holds the ones committed so far. *)
Fixpoint afforded (ops done : list op) : list op :=
  match ops with
  | [] => done
  | o :: rest =>
      afforded rest
        (if affordable o (fun a => total a done) then done ++ [o] else done)
  end.

(** The id of no operation of [ops] occurs in the id of an operation
    before it, in [earlier] or in [ops]. *)
Fixpoint fresh (earlier ops : list op) : bool :=
  match ops with
  | [] => true
  | o :: rest =>
      forallb (fun e => negb (contains (id o) (id e))) earlier
      && fresh (earlier ++ [o]) rest
  end.

(** The journal of [fs] is that of the history [h]: it is made of whole
    lines, [read] returns the totals of the committed operations, and
    [already_committed] answers as [sealed] for every id, also when more
    lines follow. *)
Definition tells (fs : files) (h : history) : Prop :=
  ends_nl (store fs) = true
  /\ (forall a, eval (read a) fs = Ok (total a (committed_of h)))
  /\ (forall oid found rest,
        is_token oid = true -> no_sep oid = false ->
        committed_scan oid found (lines_of (store fs) ++ rest)
        = sealed oid found h || committed_scan oid (marked oid found h) rest).

(** The attribute [ts]. *)
Definition ts_of (o : op) : pyval :=
  match o with
  | MoveOp ts _ _ _ => ts
  | WithdrawOp ts _ _ => ts
  | DepositOp ts _ _ => ts
  end.

(** The operation with its timestamp as its id spells it. *)
Definition with_text_ts (o : op) : op :=
  match o with
  | MoveOp ts src dst amt => MoveOp (PyStr (py_str ts)) src dst amt
  | WithdrawOp ts dst amt => WithdrawOp (PyStr (py_str ts)) dst amt
  | DepositOp ts dst amt => DepositOp (PyStr (py_str ts)) dst amt
  end.

(** Two deposits, a withdrawal that the balance does not cover, a move,
    and the same move again. *)
Definition scenario : list op :=
  [DepositOp (PyInt 1) (lit "A") 5; DepositOp (PyInt 2) (lit "A") 10;
   WithdrawOp (PyInt 3) (lit "A") 100;
   MoveOp (PyInt 4) (lit "A") (lit "B") 15;
   MoveOp (PyInt 4) (lit "A") (lit "B") 15].

(** ** Further vocabulary *)

(** The journal of [fs'] is the journal of [fs] with some text after it,
    and the backup is the same. *)
Definition extends (fs fs' : files) : Prop :=
  exists x, fs' = mkFiles (store fs ++ x) (backup fs).

(** The line is a [COMMIT] for [already_committed]: stripped, it is the
    bare keyword. *)
Definition is_commit_line (l : str) : bool := str_eqb (strip l) COMMIT.

(** The attribute [amt]. *)
Definition amt_of (o : op) : Z :=
  match o with
  | MoveOp _ _ _ amt => amt
  | WithdrawOp _ _ amt => amt
  | DepositOp _ _ amt => amt
  end.

(** The account whose balance [handle] reads first. *)
Definition first_read (o : op) : str :=
  match o with
  | MoveOp _ src _ _ => src
  | WithdrawOp _ dst _ => dst
  | DepositOp _ dst _ => dst
  end.

(** * Properties *)

(** ** Text *)

Example isspace_ex :
  map isspace (lit (String (ascii_of_nat 9) (String (ascii_of_nat 10)
        (String (ascii_of_nat 31) (String (ascii_of_nat 133) " A_0")))))
  = [true; true; true; true; true; false; false; false].
Proof. reflexivity. Qed.

Example split_ex :
  split (lit "  WRITE A   15 ") = [lit "WRITE"; lit "A"; lit "15"].
Proof. reflexivity. Qed.

Example split_on_ex :
  split_on "_" (lit "mov_1__B_5") = [lit "mov"; lit "1"; []; lit "B"; lit "5"].
Proof. reflexivity. Qed.

Example int_of_str_ex :
  map int_of_str [lit "15"; lit " -7 "; lit "+1_000"; lit "1__0"; lit ""; lit "-"; lit "0x1"]
  = [Some 15; Some (-7); Some 1000; None; None; None; None].
Proof. reflexivity. Qed.

(** A unit separator before the digits: [split()] takes it for
    whitespace, [int] does not; a no-break space is skipped by both. *)
Example int_of_str_separator_ex :
  int_of_str [ascii_of_nat 31; "5"%char] = None
  /\ split [ascii_of_nat 31; "5"%char] = [lit "5"]
  /\ int_of_str [ascii_of_nat 160; "5"%char; ascii_of_nat 133] = Some 5.
Proof. repeat split; reflexivity. Qed.

Example str_of_int_ex :
  map str_of_int [0; 15; -7] = [lit "0"; lit "15"; lit "-7"].
Proof. reflexivity. Qed.


Lemma str_eqb_refl (a : str) : str_eqb a a = true.
Proof.
  induction a as [|c a IH]; simpl; [reflexivity|].
  now rewrite Ascii.eqb_refl, IH.
Qed.

Lemma str_eqb_eq (a b : str) : str_eqb a b = true <-> a = b.
Proof.
  split; [|intros ->; apply str_eqb_refl].
  revert b; induction a as [|c a IH]; intros [|d b]; simpl; try easy.
  rewrite andb_true_iff, Ascii.eqb_eq. intros [-> H]. f_equal. now apply IH.
Qed.

Lemma str_eqb_neq (a b : str) : a <> b -> str_eqb a b = false.
Proof.
  intros H. destruct (str_eqb a b) eqn:E; [|reflexivity].
  now apply str_eqb_eq in E.
Qed.

Lemma str_eqb_sym (a b : str) : str_eqb a b = str_eqb b a.
Proof.
  destruct (str_eqb b a) eqn:E.
  - apply str_eqb_eq in E. subst. apply str_eqb_refl.
  - apply str_eqb_neq. intros ->. now rewrite str_eqb_refl in E.
Qed.

Lemma startswith_app (p s : str) : startswith p (p ++ s) = true.
Proof.
  induction p as [|c p IH]; simpl; [reflexivity|].
  now rewrite Ascii.eqb_refl.
Qed.

Lemma contains_here (sub s : str) : contains sub (sub ++ s) = true.
Proof.
  destruct sub, s; simpl; rewrite ?app_nil_r, ?Ascii.eqb_refl, ?startswith_app;
    simpl; try reflexivity.
  replace (startswith sub sub) with (startswith sub (sub ++ [])).
  - now rewrite startswith_app.
  - now rewrite app_nil_r.
Qed.

Lemma contains_app_r (sub p s : str) :
  contains sub s = true -> contains sub (p ++ s) = true.
Proof.
  intros H. induction p as [|c p IH]; simpl; [exact H|].
  rewrite IH. apply orb_true_r.
Qed.

Lemma contains_nil_false (sub : str) : sub <> [] -> contains sub [] = false.
Proof. destruct sub; [easy|reflexivity]. Qed.

(** *** Tokens *)

Lemma no_space_app (a b : str) :
  no_space (a ++ b) = no_space a && no_space b.
Proof. apply forallb_app. Qed.

Lemma is_token_no_space (t : str) : is_token t = true -> no_space t = true.
Proof. destruct t; [discriminate|easy]. Qed.

Lemma is_token_nonempty (t : str) : is_token t = true -> t <> [].
Proof. destruct t; [discriminate|easy]. Qed.

Lemma no_space_one_line (s : str) : no_space s = true -> one_line s = true.
Proof.
  unfold no_space, one_line. rewrite !forallb_forall. intros H c Hc.
  specialize (H c Hc).
  destruct (Ascii.eqb_spec c nl) as [->|_]; [discriminate H|].
  destruct (Ascii.eqb_spec c cr) as [->|_]; [discriminate H|reflexivity].
Qed.

Lemma one_line_app (a b : str) :
  one_line (a ++ b) = one_line a && one_line b.
Proof. apply forallb_app. Qed.

(** *** split() *)

Lemma split_go_no_space (t cur s : str) :
  no_space t = true -> split_go cur (t ++ s) = split_go (rev t ++ cur) s.
Proof.
  revert cur. induction t as [|c t IH]; intros cur H; simpl in *; [reflexivity|].
  apply andb_true_iff in H as [Hc Ht]. apply negb_true_iff in Hc.
  rewrite Hc, IH by exact Ht. now rewrite <- app_assoc.
Qed.

Lemma split_go_token (t s : str) (c : ascii) :
  is_token t = true -> isspace c = true ->
  split_go [] (t ++ c :: s) = t :: split_go [] s.
Proof.
  intros Ht Hc. rewrite split_go_no_space by now apply is_token_no_space.
  simpl. rewrite Hc, app_nil_r.
  destruct (rev t) eqn:E.
  - apply (f_equal (@rev ascii)) in E. rewrite rev_involutive in E.
    subst t. discriminate Ht.
  - now rewrite <- E, rev_involutive.
Qed.

Lemma split_three (k a b : str) :
  is_token k = true -> is_token a = true -> is_token b = true ->
  split (k ++ lit " " ++ a ++ lit " " ++ b ++ NEWLINE) = [k; a; b].
Proof.
  intros Hk Ha Hb. unfold split, lit, NEWLINE. simpl.
  now rewrite !split_go_token.
Qed.

(** *** strip() *)

Lemma lstrip_no_space (s : str) : no_space s = true -> lstrip s = s.
Proof.
  destruct s as [|c s]; simpl; [reflexivity|].
  intros H. apply andb_true_iff in H as [Hc _]. apply negb_true_iff in Hc.
  now rewrite Hc.
Qed.

Lemma rstrip_snoc (s : str) (c : ascii) :
  rstrip (s ++ [c]) = if isspace c then rstrip s else s ++ [c].
Proof.
  unfold rstrip. rewrite rev_unit. simpl.
  destruct (isspace c); [reflexivity|].
  simpl. now rewrite rev_involutive.
Qed.

(** A text whose first and last characters are not whitespace. *)
Lemma strip_trimmed (s : str) :
  trimmed s = true -> strip s = s.
Proof.
  unfold trimmed, strip.
  destruct s as [|c s]; [reflexivity|].
  intros H. apply andb_true_iff in H as [Hc Hl].
  apply negb_true_iff in Hc. simpl lstrip. rewrite Hc.
  unfold rstrip. destruct (rev (c :: s)) as [|d r] eqn:E; [discriminate|].
  apply negb_true_iff in Hl. simpl. rewrite Hl.
  rewrite <- E. apply rev_involutive.
Qed.

Lemma strip_line (s : str) :
  trimmed s = true -> strip (s ++ NEWLINE) = s.
Proof.
  intros H. generalize (strip_trimmed s H). unfold strip, trimmed in *.
  destruct s as [|c s]; [discriminate|].
  apply andb_true_iff in H as [Hc _]. apply negb_true_iff in Hc.
  simpl lstrip. rewrite Hc. intros Hs.
  change (c :: s ++ NEWLINE) with ((c :: s) ++ [nl]).
  rewrite rstrip_snoc. exact Hs.
Qed.

Lemma is_token_trimmed (t : str) : is_token t = true -> trimmed t = true.
Proof.
  intros H. unfold trimmed. destruct t as [|c t]; [discriminate|].
  pose proof (is_token_no_space _ H) as Hn. unfold no_space in Hn.
  rewrite forallb_forall in Hn.
  remember (rev (c :: t)) as R eqn:E.
  rewrite (Hn c) by now left.
  destruct R as [|d r].
  - apply (f_equal (@rev ascii)) in E. now rewrite rev_involutive in E.
  - apply Hn. apply in_rev. rewrite <- E. now left.
Qed.

(** *** str(n) and int(s) *)

Lemma int_space_isspace (c : ascii) : int_space c = true -> isspace c = true.
Proof.
  destruct c as [[|] [|] [|] [|] [|] [|] [|] [|]]; try discriminate; reflexivity.
Qed.

Lemma int_strip_trimmed (s : str) : trimmed s = true -> int_strip s = s.
Proof.
  unfold trimmed, int_strip.
  destruct s as [|c s]; [reflexivity|].
  intros H. apply andb_true_iff in H as [Hc Hl].
  assert (Hc' : int_space c = false).
  { destruct (int_space c) eqn:E; [|reflexivity].
    apply int_space_isspace in E. now rewrite E in Hc. }
  simpl int_lstrip. rewrite Hc'.
  destruct (rev (c :: s)) as [|d r] eqn:E; [discriminate|].
  assert (Hd' : int_space d = false).
  { destruct (int_space d) eqn:E'; [|reflexivity].
    apply int_space_isspace in E'. now rewrite E' in Hl. }
  simpl. rewrite Hd'. rewrite <- E. apply rev_involutive.
Qed.

Lemma uint_digits (d : Decimal.uint) :
  forallb is_digit (list_ascii_of_string (NilEmpty.string_of_uint d)) = true.
Proof. induction d; simpl; try reflexivity; exact IHd. Qed.

Lemma uint_digits_zero (d : Decimal.uint) :
  forallb is_digit (list_ascii_of_string (NilZero.string_of_uint d)) = true.
Proof. destruct d; try reflexivity; apply (uint_digits (_ d)). Qed.

Lemma uint_zero_nonempty (d : Decimal.uint) :
  list_ascii_of_string (NilZero.string_of_uint d) <> [].
Proof. destruct d; discriminate. Qed.

Lemma forallb_impl {A} (f g : A -> bool) (l : list A) :
  (forall x, f x = true -> g x = true) ->
  forallb f l = true -> forallb g l = true.
Proof.
  intros H. rewrite !forallb_forall. intros Hf x Hx. apply H, Hf, Hx.
Qed.

Lemma is_digit_no_space c : is_digit c = true -> negb (isspace c) = true.
Proof.
  destruct c as [[|] [|] [|] [|] [|] [|] [|] [|]]; try discriminate; reflexivity.
Qed.

Lemma is_digit_no_sep c :
  is_digit c = true -> negb (Ascii.eqb c ID_SEPARATOR) = true.
Proof.
  destruct c as [[|] [|] [|] [|] [|] [|] [|] [|]]; try discriminate; reflexivity.
Qed.

Lemma str_of_int_shape (n : Z) :
  exists d : Decimal.uint,
    str_of_int n = list_ascii_of_string (NilZero.string_of_uint d) \/
    str_of_int n = "-"%char :: list_ascii_of_string (NilZero.string_of_uint d).
Proof.
  unfold str_of_int. destruct (Z.to_int n) as [d|d]; exists d; [left|right];
    reflexivity.
Qed.

Lemma str_of_int_token (n : Z) : is_token (str_of_int n) = true.
Proof.
  destruct (str_of_int_shape n) as [d [-> | ->]].
  - pose proof (uint_zero_nonempty d) as Hne.
    pose proof (uint_digits_zero d) as Hd.
    destruct (list_ascii_of_string (NilZero.string_of_uint d)) eqn:E; [easy|].
    unfold is_token, no_space. revert Hd. apply forallb_impl, is_digit_no_space.
  - simpl. generalize (uint_digits_zero d).
    apply forallb_impl, is_digit_no_space.
Qed.

Lemma str_of_int_no_sep (n : Z) : no_sep (str_of_int n) = true.
Proof.
  destruct (str_of_int_shape n) as [d [-> | ->]]; unfold no_sep; simpl;
    generalize (uint_digits_zero d); apply forallb_impl, is_digit_no_sep.
Qed.

Lemma literal_digits_all (ds : str) (b : bool) :
  forallb is_digit ds = true -> ds <> [] \/ b = true ->
  literal_digits b ds = Some ds.
Proof.
  revert b. induction ds as [|c ds IH]; intros b Hd Hb; simpl.
  - destruct Hb as [Hb | ->]; [easy|reflexivity].
  - simpl in Hd. apply andb_true_iff in Hd as [Hc Hd].
    pose proof (is_digit_no_sep c Hc) as Hs. apply negb_true_iff in Hs.
    unfold ID_SEPARATOR in Hs. rewrite Hs, Hc.
    rewrite IH; [reflexivity | exact Hd | now right].
Qed.

Lemma uint_of_digits_zero (d : Decimal.uint) :
  uint_of_digits (list_ascii_of_string (NilZero.string_of_uint d))
  = Some (Z.of_uint d).
Proof.
  unfold uint_of_digits. rewrite string_of_list_ascii_of_string.
  destruct d; try reflexivity; cbv [NilZero.string_of_uint];
    now rewrite NilEmpty.usu.
Qed.

Lemma int_of_str_digits (d : Decimal.uint) :
  int_of_str (list_ascii_of_string (NilZero.string_of_uint d))
  = Some (Z.of_uint d).
Proof.
  pose proof (uint_zero_nonempty d) as Hne.
  pose proof (uint_digits_zero d) as Hd.
  pose proof (uint_of_digits_zero d) as Hu.
  set (ds := list_ascii_of_string (NilZero.string_of_uint d)) in *.
  unfold int_of_str.
  assert (Ht : is_token ds = true).
  { destruct ds; [easy|]. unfold is_token, no_space.
    revert Hd. apply forallb_impl, is_digit_no_space. }
  rewrite (int_strip_trimmed ds) by now apply is_token_trimmed.
  destruct ds as [|c t] eqn:E; [easy|].
  assert (Hc : is_digit c = true) by (simpl in Hd; now apply andb_true_iff in Hd).
  assert (Ascii.eqb c "-" = false) as ->
    by (destruct c as [[|] [|] [|] [|] [|] [|] [|] [|]]; try discriminate; reflexivity).
  assert (Ascii.eqb c "+" = false) as ->
    by (destruct c as [[|] [|] [|] [|] [|] [|] [|] [|]]; try discriminate; reflexivity).
  rewrite literal_digits_all; [exact Hu | exact Hd | now left].
Qed.

Lemma int_of_str_of_int (n : Z) : int_of_str (str_of_int n) = Some n.
Proof.
  rewrite <- (DecimalZ.of_to n) at 2.
  unfold str_of_int. destruct (Z.to_int n) as [d|d]; simpl NilZero.string_of_int.
  - apply int_of_str_digits.
  - pose proof (uint_zero_nonempty d) as Hne.
    pose proof (uint_digits_zero d) as Hd.
    pose proof (uint_of_digits_zero d) as Hu.
    simpl list_ascii_of_string.
    set (ds := list_ascii_of_string (NilZero.string_of_uint d)) in *.
    unfold int_of_str.
    assert (Ht : is_token ("-"%char :: ds) = true).
    { unfold is_token, no_space. simpl. revert Hd.
      apply forallb_impl, is_digit_no_space. }
    rewrite (int_strip_trimmed _ (is_token_trimmed _ Ht)).
    simpl. rewrite literal_digits_all; [|exact Hd|now left].
    rewrite Hu. reflexivity.
Qed.

(** *** split(sep) and join *)

Lemma split_on_no_sep (s : str) :
  no_sep s = true -> split_on ID_SEPARATOR s = [s].
Proof.
  induction s as [|c s IH]; simpl; [reflexivity|].
  intros H. apply andb_true_iff in H as [Hc Hs]. apply negb_true_iff in Hc.
  now rewrite Hc, IH.
Qed.

Lemma split_on_field (s rest : str) :
  no_sep s = true ->
  split_on ID_SEPARATOR (s ++ ID_SEPARATOR :: rest)
  = s :: split_on ID_SEPARATOR rest.
Proof.
  induction s as [|c s IH]; simpl.
  - intros _. reflexivity.
  - intros H. apply andb_true_iff in H as [Hc Hs]. apply negb_true_iff in Hc.
    now rewrite Hc, IH.
Qed.

Lemma split_on_join (parts : list str) :
  parts <> [] -> forallb no_sep parts = true ->
  split_on ID_SEPARATOR (join ID_SEPARATOR parts) = parts.
Proof.
  induction parts as [|p rest IH]; [easy|]. intros _ H.
  simpl in H. apply andb_true_iff in H as [Hp Hr].
  destruct rest as [|q rest].
  - simpl. now apply split_on_no_sep.
  - change (join ID_SEPARATOR (p :: q :: rest))
      with (p ++ ID_SEPARATOR :: join ID_SEPARATOR (q :: rest)).
    rewrite split_on_field by exact Hp. f_equal. now apply IH.
Qed.
(** ** Lines *)

Lemma ends_nl_cons (c : ascii) (s : str) :
  s <> [] -> ends_nl (c :: s) = ends_nl s.
Proof. destruct s; [easy|reflexivity]. Qed.

Lemma ends_nl_app (a b : str) :
  b <> [] -> ends_nl (a ++ b) = ends_nl b.
Proof.
  intros Hb. induction a as [|c a IH]; [reflexivity|].
  simpl app. rewrite ends_nl_cons; [exact IH|].
  destruct a; [exact Hb|discriminate].
Qed.

Lemma ends_nl_snoc (a : str) : ends_nl (a ++ [nl]) = true.
Proof. now rewrite ends_nl_app. Qed.

Lemma ends_nl_app_both (a b : str) :
  ends_nl a = true -> ends_nl b = true -> ends_nl (a ++ b) = true.
Proof.
  intros Ha Hb. destruct b as [|c b]; [now rewrite app_nil_r|].
  now rewrite ends_nl_app.
Qed.

Lemma universal_newlines_line (body s : str) :
  one_line body = true ->
  universal_newlines (body ++ nl :: s) = body ++ nl :: universal_newlines s.
Proof.
  induction body as [|c body IH]; intros H; [reflexivity|].
  simpl in H. apply andb_true_iff in H as [Hc Hb].
  apply andb_true_iff in Hc as [_ Hc]. apply negb_true_iff in Hc.
  simpl. rewrite Hc. f_equal. now apply IH.
Qed.

Lemma lines_go_line (body cur s : str) :
  one_line body = true ->
  lines_go cur (body ++ nl :: s) = (rev cur ++ body ++ [nl]) :: lines_go [] s.
Proof.
  revert cur. induction body as [|c body IH]; intros cur H.
  - reflexivity.
  - simpl in H. apply andb_true_iff in H as [Hc Hb].
    apply andb_true_iff in Hc as [Hc _]. apply negb_true_iff in Hc.
    simpl. rewrite Hc, IH by exact Hb. simpl. now rewrite <- app_assoc.
Qed.

Lemma lines_of_cons (l s : str) :
  whole l -> lines_of (l ++ s) = l :: lines_of s.
Proof.
  intros (body & -> & Hb). unfold lines_of, splitlines.
  rewrite <- app_assoc. simpl app.
  rewrite universal_newlines_line, lines_go_line by exact Hb.
  reflexivity.
Qed.

Lemma lines_of_concat (ls : list str) :
  Forall whole ls -> lines_of (concat ls) = ls.
Proof.
  induction 1 as [|l ls Hl _ IH]; [reflexivity|].
  simpl. now rewrite lines_of_cons, IH.
Qed.

Lemma universal_newlines_app (a b : str) :
  ends_nl a = true ->
  universal_newlines (a ++ b) = universal_newlines a ++ universal_newlines b.
Proof.
  remember (List.length a) as n eqn:Hn. revert a Hn.
  induction n as [n IH] using lt_wf_ind. intros a Hn Ha.
  destruct a as [|c a]; [reflexivity|].
  destruct a as [|c' a].
  - simpl in Ha. apply Ascii.eqb_eq in Ha. subst c. reflexivity.
  - change (ends_nl (c :: c' :: a)) with (ends_nl (c' :: a)) in Ha.
    simpl app. simpl universal_newlines at 1 3.
    destruct (Ascii.eqb c cr).
    + destruct (Ascii.eqb c' nl).
      * simpl. f_equal.
        assert (Ha' : ends_nl a = true).
        { destruct a; [reflexivity|exact Ha]. }
        apply (IH (List.length a)); [simpl in Hn; lia|reflexivity|exact Ha'].
      * simpl. f_equal.
        apply (IH (List.length (c' :: a))) with (a := c' :: a);
          [simpl in *; lia|reflexivity|exact Ha].
    + simpl. f_equal.
      apply (IH (List.length (c' :: a))) with (a := c' :: a);
        [simpl in *; lia|reflexivity|exact Ha].
Qed.

Lemma ends_nl_universal (a : str) :
  ends_nl a = true -> ends_nl (universal_newlines a) = true.
Proof.
  remember (List.length a) as n eqn:Hn. revert a Hn.
  induction n as [n IH] using lt_wf_ind. intros a Hn Ha.
  destruct a as [|c a]; [reflexivity|].
  destruct a as [|c' a].
  - simpl in Ha. apply Ascii.eqb_eq in Ha. subst c. reflexivity.
  - change (ends_nl (c :: c' :: a)) with (ends_nl (c' :: a)) in Ha.
    assert (Htl : ends_nl (universal_newlines (c' :: a)) = true).
    { apply (IH (List.length (c' :: a))); [simpl in *; lia|reflexivity|exact Ha]. }
    assert (Hne : universal_newlines (c' :: a) <> []).
    { simpl. destruct (Ascii.eqb c' cr); [destruct a as [|x a]; [easy|]|easy].
      destruct (Ascii.eqb x nl); easy. }
    simpl universal_newlines at 1.
    destruct (Ascii.eqb c cr).
    + destruct (Ascii.eqb c' nl) eqn:E.
      * assert (Ha' : ends_nl a = true).
        { destruct a; [reflexivity|exact Ha]. }
        destruct a as [|x a]; [reflexivity|].
        rewrite ends_nl_cons.
        -- apply (IH (List.length (x :: a))); [simpl in *; lia|reflexivity|exact Ha'].
        -- simpl. destruct (Ascii.eqb x cr); [destruct a as [|y a]; [easy|]|easy].
           destruct (Ascii.eqb y nl); easy.
      * rewrite ends_nl_cons; assumption.
    + rewrite ends_nl_cons; assumption.
Qed.

Lemma lines_go_cons (cur : str) (c : ascii) (s : str) :
  lines_go cur (c :: s)
  = if Ascii.eqb c nl then rev (c :: cur) :: lines_go [] s
    else lines_go (c :: cur) s.
Proof. reflexivity. Qed.

Lemma lines_go_app (a b cur : str) :
  a <> [] -> ends_nl a = true ->
  lines_go cur (a ++ b) = lines_go cur a ++ lines_go [] b.
Proof.
  revert cur. induction a as [|c a IH]; intros cur Hne Ha; [easy|].
  destruct a as [|c' a].
  - simpl in Ha. simpl. rewrite Ha. reflexivity.
  - change (ends_nl (c :: c' :: a)) with (ends_nl (c' :: a)) in Ha.
    change ((c :: c' :: a) ++ b) with (c :: ((c' :: a) ++ b)).
    rewrite !(lines_go_cons _ c).
    destruct (Ascii.eqb c nl).
    + rewrite IH by easy. reflexivity.
    + now apply IH.
Qed.

Lemma lines_of_app (a b : str) :
  ends_nl a = true -> lines_of (a ++ b) = lines_of a ++ lines_of b.
Proof.
  intros Ha. unfold lines_of, splitlines.
  rewrite universal_newlines_app by exact Ha.
  destruct (universal_newlines a) as [|c u] eqn:E; [reflexivity|].
  apply lines_go_app; [easy|].
  rewrite <- E. now apply ends_nl_universal.
Qed.

Lemma lines_of_records (a : str) (ls : list str) :
  ends_nl a = true -> Forall whole ls ->
  lines_of (a ++ concat ls) = lines_of a ++ ls.
Proof.
  intros Ha Hls. now rewrite lines_of_app, lines_of_concat.
Qed.

Lemma whole_ends_nl (l : str) : whole l -> ends_nl l = true.
Proof. intros (body & -> & _). apply ends_nl_snoc. Qed.

Lemma ends_nl_concat (ls : list str) :
  Forall whole ls -> ends_nl (concat ls) = true.
Proof.
  induction 1 as [|l ls Hl _ IH]; [reflexivity|].
  simpl. apply ends_nl_app_both; [now apply whole_ends_nl|exact IH].
Qed.
(** ** Records and their lines *)

Arguments line : simpl never.

Lemma one_line_lit_app (a b : str) :
  one_line a = true -> one_line b = true -> one_line (a ++ b) = true.
Proof. intros Ha Hb. now rewrite one_line_app, Ha, Hb. Qed.

Lemma is_token_one_line (t : str) : is_token t = true -> one_line t = true.
Proof. intros H. now apply no_space_one_line, is_token_no_space. Qed.

Lemma str_of_int_one_line (n : Z) : one_line (str_of_int n) = true.
Proof. apply is_token_one_line, str_of_int_token. Qed.

Lemma insufficient_funds_one_line (curr amt : Z) :
  one_line (insufficient_funds curr amt) = true.
Proof.
  unfold insufficient_funds.
  repeat (apply one_line_lit_app; try reflexivity; try apply str_of_int_one_line).
Qed.

Lemma line_whole (l : logline) : wf_line l = true -> whole (line l).
Proof.
  unfold whole, line.
  destruct l as [oid|dst amt|dst amt|[e|]]; simpl; intros H.
  - exists (BEGIN ++ lit " " ++ oid). split.
    + now rewrite <- !app_assoc.
    + repeat (apply one_line_lit_app; try reflexivity); exact H.
  - exists (WRITE ++ lit " " ++ dst ++ lit " " ++ str_of_int amt). split.
    + now rewrite <- !app_assoc.
    + repeat (apply one_line_lit_app; try reflexivity);
        auto using is_token_one_line, str_of_int_one_line.
  - exists (READ ++ lit " " ++ dst ++ lit " " ++ str_of_int amt). split.
    + now rewrite <- !app_assoc.
    + repeat (apply one_line_lit_app; try reflexivity);
        auto using is_token_one_line, str_of_int_one_line.
  - exists (COMMIT ++ lit " " ++ e). split.
    + now rewrite <- !app_assoc.
    + repeat (apply one_line_lit_app; try reflexivity); exact H.
  - exists COMMIT. split; reflexivity.
Qed.

Lemma lines_whole (recs : list logline) :
  forallb wf_line recs = true -> Forall whole (map line recs).
Proof.
  induction recs as [|l recs IH]; simpl; intros H; constructor.
  - apply line_whole. now apply andb_true_iff in H.
  - apply IH. now apply andb_true_iff in H.
Qed.

Lemma lines_of_logged (fs : files) (recs : list logline) :
  ends_nl (store fs) = true -> forallb wf_line recs = true ->
  lines_of (store (logged fs recs)) = lines_of (store fs) ++ map line recs.
Proof.
  intros Hs Hr. unfold logged. simpl store.
  apply lines_of_records; [exact Hs|now apply lines_whole].
Qed.

Lemma ends_nl_logged (fs : files) (recs : list logline) :
  ends_nl (store fs) = true -> forallb wf_line recs = true ->
  ends_nl (store (logged fs recs)) = true.
Proof.
  intros Hs Hr. unfold logged. simpl store.
  apply ends_nl_app_both; [exact Hs|]. now apply ends_nl_concat, lines_whole.
Qed.

(** *** read over the lines of records *)

Lemma read_scan_cons (a l : str) (rest : list str) :
  read_scan a (l :: rest)
  = if startswith WRITE l then
      match split l with
      | [_; account; amt] =>
          if str_eqb account a then
            match int_of_str amt with
            | Some n => Ok n
            | None => Raise ValueError
            end
          else read_scan a rest
      | _ => Raise ValueError
      end
    else read_scan a rest.
Proof. reflexivity. Qed.

Lemma read_scan_skip (a l : str) (rest : list str) :
  startswith WRITE l = false -> read_scan a (l :: rest) = read_scan a rest.
Proof. intros H. now rewrite read_scan_cons, H. Qed.

Lemma read_scan_begin (a oid : str) (rest : list str) :
  read_scan a (line (BeginLogLine oid) :: rest) = read_scan a rest.
Proof. now apply read_scan_skip. Qed.

Lemma read_scan_read (a dst : str) (n : Z) (rest : list str) :
  read_scan a (line (ReadLogLine dst n) :: rest) = read_scan a rest.
Proof. now apply read_scan_skip. Qed.

Lemma read_scan_commit (a : str) (e : option str) (rest : list str) :
  read_scan a (line (CommitLogLine e) :: rest) = read_scan a rest.
Proof. now apply read_scan_skip. Qed.

Lemma read_scan_blank (a : str) (rest : list str) :
  read_scan a (NEWLINE :: rest) = read_scan a rest.
Proof. now apply read_scan_skip. Qed.

Lemma read_scan_write (a dst : str) (n : Z) (rest : list str) :
  is_token dst = true ->
  read_scan a (line (WriteLogLine dst n) :: rest)
  = if str_eqb dst a then Ok n else read_scan a rest.
Proof.
  intros H. rewrite read_scan_cons. unfold line.
  rewrite startswith_app, split_three;
    [|reflexivity|exact H|apply str_of_int_token].
  now rewrite int_of_str_of_int.
Qed.

Lemma read_scan_cons_congr (a l : str) (r r' : list str) :
  read_scan a r = read_scan a r' -> read_scan a (l :: r) = read_scan a (l :: r').
Proof. intros H. rewrite !read_scan_cons. now rewrite H. Qed.

Lemma read_scan_app_congr (a : str) (x r r' : list str) :
  read_scan a r = read_scan a r' -> read_scan a (x ++ r) = read_scan a (x ++ r').
Proof.
  intros H. induction x as [|l x IH]; [exact H|].
  simpl app. now apply read_scan_cons_congr.
Qed.
(** *** already_committed over the lines of records *)

Lemma committed_scan_cons (oid : str) (found : bool) (l : str) (rest : list str) :
  committed_scan oid found (l :: rest)
  = if (if contains oid (strip l) then true else found) && str_eqb (strip l) COMMIT
    then true
    else committed_scan oid (if contains oid (strip l) then true else found) rest.
Proof. reflexivity. Qed.

Lemma committed_scan_app (oid : str) (found : bool) (ls xs : list str) :
  committed_scan oid found (ls ++ xs)
  = committed_scan oid found ls || committed_scan oid (found_after oid found ls) xs.
Proof.
  revert found. induction ls as [|l ls IH]; intros found; [reflexivity|].
  simpl app. rewrite !committed_scan_cons.
  destruct ((if contains oid (strip l) then true else found)
            && str_eqb (strip l) COMMIT); [reflexivity|].
  apply IH.
Qed.

Lemma found_after_app (oid : str) (found : bool) (ls xs : list str) :
  found_after oid found (ls ++ xs)
  = found_after oid (found_after oid found ls) xs.
Proof. apply fold_left_app. Qed.

Lemma found_after_true (oid : str) (ls : list str) :
  found_after oid true ls = true.
Proof.
  induction ls as [|l ls IH]; [reflexivity|].
  simpl. now destruct (contains oid (strip l)).
Qed.

Lemma committed_scan_found_skip (oid l : str) (rest : list str) :
  str_eqb (strip l) COMMIT = false ->
  committed_scan oid true (l :: rest) = committed_scan oid true rest.
Proof.
  intros H. rewrite committed_scan_cons, H, andb_false_r.
  now destruct (contains oid (strip l)).
Qed.

Lemma committed_scan_found_commit (oid : str) (rest : list str) :
  committed_scan oid true (line (CommitLogLine None) :: rest) = true.
Proof.
  rewrite committed_scan_cons.
  change (strip (line (CommitLogLine None))) with COMMIT.
  rewrite str_eqb_refl. now destruct (contains oid COMMIT).
Qed.

Lemma trimmed_head_app (a b : str) :
  match a with c :: _ => negb (isspace c) | [] => false end = true ->
  is_token b = true -> trimmed (a ++ b) = true.
Proof.
  unfold trimmed. intros Ha Hb.
  destruct a as [|c a]; [discriminate|].
  change ((c :: a) ++ b) with (c :: (a ++ b)). cbv beta iota. rewrite Ha.
  change (c :: a ++ b) with ((c :: a) ++ b). rewrite rev_app_distr.
  destruct (rev b) as [|d r] eqn:E.
  - apply (f_equal (@rev ascii)) in E. rewrite rev_involutive in E. now subst.
  - simpl. apply is_token_no_space in Hb. unfold no_space in Hb.
    rewrite forallb_forall in Hb. apply Hb. apply in_rev. rewrite E. now left.
Qed.

Lemma strip_begin (oid : str) :
  is_token oid = true ->
  strip (line (BeginLogLine oid)) = BEGIN ++ lit " " ++ oid.
Proof.
  intros H. unfold line. rewrite !app_assoc. apply strip_line.
  now apply trimmed_head_app.
Qed.

Lemma strip_read (dst : str) (n : Z) :
  strip (line (ReadLogLine dst n)) = READ ++ lit " " ++ dst ++ lit " " ++ str_of_int n.
Proof.
  unfold line. rewrite !app_assoc. apply strip_line.
  apply trimmed_head_app; [reflexivity|apply str_of_int_token].
Qed.

Lemma strip_write (dst : str) (n : Z) :
  strip (line (WriteLogLine dst n)) = WRITE ++ lit " " ++ dst ++ lit " " ++ str_of_int n.
Proof.
  unfold line. rewrite !app_assoc. apply strip_line.
  apply trimmed_head_app; [reflexivity|apply str_of_int_token].
Qed.

Lemma strip_commit_error (curr amt : Z) :
  strip (line (CommitLogLine (Some (insufficient_funds curr amt))))
  = COMMIT ++ lit " " ++ insufficient_funds curr amt.
Proof.
  unfold line, insufficient_funds. rewrite !app_assoc. apply strip_line.
  apply trimmed_head_app; [reflexivity|apply str_of_int_token].
Qed.

Lemma committed_scan_found_begin (oid x : str) (rest : list str) :
  is_token x = true ->
  committed_scan oid true (line (BeginLogLine x) :: rest)
  = committed_scan oid true rest.
Proof.
  intros H. apply committed_scan_found_skip. now rewrite strip_begin.
Qed.

Lemma committed_scan_found_read (oid dst : str) (n : Z) (rest : list str) :
  committed_scan oid true (line (ReadLogLine dst n) :: rest)
  = committed_scan oid true rest.
Proof. apply committed_scan_found_skip. now rewrite strip_read. Qed.

Lemma committed_scan_found_write (oid dst : str) (n : Z) (rest : list str) :
  committed_scan oid true (line (WriteLogLine dst n) :: rest)
  = committed_scan oid true rest.
Proof. apply committed_scan_found_skip. now rewrite strip_write. Qed.

Lemma committed_scan_found_error (oid : str) (curr amt : Z) (rest : list str) :
  committed_scan oid true
    (line (CommitLogLine (Some (insufficient_funds curr amt))) :: rest)
  = committed_scan oid true rest.
Proof. apply committed_scan_found_skip. now rewrite strip_commit_error. Qed.

(** The [BEGIN] line of an operation sets the flag for its own id and is
    not a [COMMIT]. *)
Lemma committed_scan_own_begin (oid : str) (found : bool) (rest : list str) :
  is_token oid = true ->
  committed_scan oid found (line (BeginLogLine oid) :: rest)
  = committed_scan oid true rest.
Proof.
  intros H. rewrite committed_scan_cons, strip_begin by exact H.
  assert (Hc : contains oid (BEGIN ++ lit " " ++ oid) = true).
  { rewrite app_assoc. apply contains_app_r.
    rewrite <- (app_nil_r oid) at 2. apply contains_here. }
  rewrite Hc. reflexivity.
Qed.

(** *** Operation ids *)

Lemma no_space_join (parts : list str) :
  forallb no_space parts = true -> no_space (join ID_SEPARATOR parts) = true.
Proof.
  induction parts as [|p rest IH]; [reflexivity|].
  intros H. simpl in H. apply andb_true_iff in H as [Hp Hr].
  destruct rest as [|q rest]; [exact Hp|].
  change (join ID_SEPARATOR (p :: q :: rest))
    with (p ++ ID_SEPARATOR :: join ID_SEPARATOR (q :: rest)).
  rewrite no_space_app, Hp. simpl. now apply IH.
Qed.

Lemma id_token (o : op) : wf_op o = true -> is_token (id o) = true.
Proof.
  intros H.
  assert (Hn : no_space (id o) = true).
  { destruct o; simpl in H; unfold id; apply no_space_join; simpl;
      repeat (apply andb_true_iff in H as [H ?]);
      rewrite ?andb_true_r;
      repeat (apply andb_true_iff; split);
      auto using is_token_no_space, str_of_int_token. }
  destruct o; exact Hn.
Qed.
(** ** Running handle *)

Lemma logged_nil (fs : files) : logged fs [] = fs.
Proof. destruct fs. unfold logged. simpl. now rewrite app_nil_r. Qed.

Lemma logged_app (fs : files) (xs ys : list logline) :
  logged (logged fs xs) ys = logged fs (xs ++ ys).
Proof.
  unfold logged. simpl. now rewrite map_app, concat_app, app_assoc.
Qed.

Lemma log_run (l : logline) (fs : files) : log l fs = (Ok tt, logged fs [l]).
Proof. unfold log, logged. simpl. now rewrite app_nil_r. Qed.

Lemma read_run (a : str) (fs : files) :
  read a fs = (balance (lines_of (store fs)) a, fs).
Proof. reflexivity. Qed.

Lemma already_committed_run (o : op) (fs : files) :
  already_committed o fs
  = (Ok (committed_scan (id o) false (lines_of (store fs))), fs).
Proof. reflexivity. Qed.

Lemma balance_logged (fs : files) (recs : list logline) (a : str) :
  ends_nl (store fs) = true -> forallb wf_line recs = true ->
  balance (lines_of (store (logged fs recs))) a
  = read_scan a (rev (map line recs) ++ rev (lines_of (store fs))).
Proof.
  intros Hs Hr. unfold balance.
  now rewrite lines_of_logged, rev_app_distr.
Qed.

Lemma bind_run {A B} (m : M A) (k : A -> M B) (fs fs' : files) (a : A) :
  m fs = (Ok a, fs') -> bind m k fs = k a fs'.
Proof. intros H. unfold bind. now rewrite H. Qed.

Lemma bind_raise {A B} (m : M A) (k : A -> M B) (fs fs' : files) (e : exn) :
  m fs = (Raise e, fs') -> bind m k fs = (Raise e, fs').
Proof. intros H. unfold bind. now rewrite H. Qed.

Lemma wf_op_id_line (o : op) :
  wf_op o = true -> wf_line (BeginLogLine (id o)) = true.
Proof. intros H. simpl. now apply is_token_one_line, id_token. Qed.

Lemma guard_run (o : op) (write_begin : bool) (body : M unit) (fs : files) :
  bind (already_committed o)
    (fun done =>
       if done then ret tt
       else bind (if write_begin then log (BeginLogLine (id o)) else ret tt)
              (fun _ => body)) fs
  = if committed_scan (id o) false (lines_of (store fs)) then (Ok tt, fs)
    else body (logged fs (begin_records o write_begin)).
Proof.
  rewrite (bind_run _ _ _ _ _ (already_committed_run _ fs)).
  destruct (committed_scan _ false (lines_of (store fs))); [reflexivity|].
  unfold begin_records. destruct write_begin.
  - now rewrite (bind_run _ _ _ _ _ (log_run _ _)).
  - unfold bind, ret. now rewrite logged_nil.
Qed.

Lemma read_ok (a : str) (fs : files) (n : Z) :
  balance (lines_of (store fs)) a = Ok n -> read a fs = (Ok n, fs).
Proof. intros H. now rewrite read_run, H. Qed.

Lemma read_raise (a : str) (fs : files) (e : exn) :
  balance (lines_of (store fs)) a = Raise e -> read a fs = (Raise e, fs).
Proof. intros H. now rewrite read_run, H. Qed.

Lemma balance_after_write (fs : files) (pre : list logline) (src a : str) (curr n : Z) :
  ends_nl (store fs) = true -> forallb wf_line pre = true ->
  is_token src = true ->
  balance (lines_of (store (logged fs (pre ++ [ReadLogLine src curr; WriteLogLine src n])))) a
  = if str_eqb src a then Ok n
    else balance (lines_of (store (logged fs pre))) a.
Proof.
  intros Hs Hpre Hsrc.
  rewrite <- logged_app.
  rewrite balance_logged;
    [|now apply ends_nl_logged|simpl; now rewrite Hsrc].
  cbn [map rev app]. rewrite read_scan_write by exact Hsrc.
  rewrite read_scan_read. reflexivity.
Qed.

(** The body of the three methods, started on a journal of whole lines. *)
Lemma body_run (o : op) (fs : files) :
  ends_nl (store fs) = true -> wf_op o = true ->
  let rd := balance (lines_of (store fs)) in
  match o with
  | MoveOp _ src dst amt =>
      bind (read src) (fun curr =>
      bind (log (ReadLogLine src curr)) (fun _ =>
      if curr <? amt then
        log (CommitLogLine (Some (insufficient_funds curr amt)))
      else
        bind (log (WriteLogLine src (curr - amt))) (fun _ =>
        bind (read dst) (fun curr =>
        bind (log (ReadLogLine dst curr)) (fun _ =>
        bind (log (WriteLogLine dst (curr + amt))) (fun _ =>
        log (CommitLogLine None))))))) fs
  | WithdrawOp _ dst amt =>
      bind (read dst) (fun curr =>
      bind (log (ReadLogLine dst curr)) (fun _ =>
      if curr <? amt then
        log (CommitLogLine (Some (insufficient_funds curr amt)))
      else
        bind (log (WriteLogLine dst (curr - amt))) (fun _ =>
        log (CommitLogLine None)))) fs
  | DepositOp _ dst amt =>
      bind (read dst) (fun curr =>
      bind (log (ReadLogLine dst curr)) (fun _ =>
      bind (log (WriteLogLine dst (curr + amt))) (fun _ =>
      log (CommitLogLine None)))) fs
  end
  = (snd (body_records o rd), logged fs (fst (body_records o rd))).
Proof.
  intros Hs Hwf rd. subst rd.
  destruct o as [ts src dst amt|ts dst amt|ts dst amt]; simpl in Hwf;
    unfold body_records.
  - apply andb_true_iff in Hwf as [Hwf Hdst].
    apply andb_true_iff in Hwf as [_ Hsrc].
    destruct (balance (lines_of (store fs)) src) as [curr|e] eqn:E.
    2:{ rewrite (bind_raise _ _ _ _ _ (read_raise _ _ _ E)).
        now rewrite logged_nil. }
    rewrite (bind_run _ _ _ _ _ (read_ok _ _ _ E)).
    rewrite (bind_run _ _ _ _ _ (log_run _ _)).
    destruct (curr <? amt).
    + now rewrite log_run, logged_app.
    + rewrite (bind_run _ _ _ _ _ (log_run _ _)), logged_app.
      pose proof (balance_after_write fs [] src dst curr (curr - amt) Hs eq_refl Hsrc) as E2.
      rewrite logged_nil in E2. simpl app in *.
      destruct (if str_eqb src dst then Ok (curr - amt)
                else balance (lines_of (store fs)) dst) as [curr'|e] eqn:E3.
      2:{ now rewrite (bind_raise _ _ _ _ _ (read_raise _ _ _ E2)). }
      rewrite (bind_run _ _ _ _ _ (read_ok _ _ _ E2)).
      rewrite (bind_run _ _ _ _ _ (log_run _ _)), logged_app.
      rewrite (bind_run _ _ _ _ _ (log_run _ _)), logged_app.
      now rewrite log_run, logged_app.
  - apply andb_true_iff in Hwf as [_ Hdst].
    destruct (balance (lines_of (store fs)) dst) as [curr|e] eqn:E.
    2:{ rewrite (bind_raise _ _ _ _ _ (read_raise _ _ _ E)).
        now rewrite logged_nil. }
    rewrite (bind_run _ _ _ _ _ (read_ok _ _ _ E)).
    rewrite (bind_run _ _ _ _ _ (log_run _ _)).
    destruct (curr <? amt).
    + now rewrite log_run, logged_app.
    + rewrite (bind_run _ _ _ _ _ (log_run _ _)), logged_app.
      now rewrite log_run, logged_app.
  - apply andb_true_iff in Hwf as [_ Hdst].
    destruct (balance (lines_of (store fs)) dst) as [curr|e] eqn:E.
    2:{ rewrite (bind_raise _ _ _ _ _ (read_raise _ _ _ E)).
        now rewrite logged_nil. }
    rewrite (bind_run _ _ _ _ _ (read_ok _ _ _ E)).
    rewrite (bind_run _ _ _ _ _ (log_run _ _)).
    rewrite (bind_run _ _ _ _ _ (log_run _ _)), logged_app.
    now rewrite log_run, logged_app.
Qed.

Lemma body_records_ext (o : op) (rd rd' : str -> result Z) :
  (forall a, rd a = rd' a) -> body_records o rd = body_records o rd'.
Proof.
  intros H. destruct o; unfold body_records; now rewrite !H.
Qed.

Lemma balance_begin (o : op) (write_begin : bool) (fs : files) (a : str) :
  ends_nl (store fs) = true -> wf_op o = true ->
  balance (lines_of (store (logged fs (begin_records o write_begin)))) a
  = balance (lines_of (store fs)) a.
Proof.
  intros Hs Hwf. unfold begin_records. destruct write_begin.
  - rewrite balance_logged; [|exact Hs|].
    + cbn [map rev app]. apply read_scan_begin.
    + cbn [forallb]. now rewrite wf_op_id_line.
  - now rewrite logged_nil.
Qed.

Lemma handle_run (o : op) (write_begin : bool) (fs : files) :
  ends_nl (store fs) = true -> wf_op o = true ->
  handle o write_begin fs
  = if committed_scan (id o) false (lines_of (store fs)) then (Ok tt, fs)
    else
      let rd := balance (lines_of (store fs)) in
      (snd (body_records o rd), logged fs (handle_records o write_begin rd)).
Proof.
  intros Hs Hwf.
  assert (Hpre : forallb wf_line (begin_records o write_begin) = true).
  { unfold begin_records. destruct write_begin; [|reflexivity].
    cbn [forallb]. now rewrite wf_op_id_line. }
  pose proof (body_run o (logged fs (begin_records o write_begin))
                (ends_nl_logged _ _ Hs Hpre) Hwf) as Hbody.
  cbv zeta in Hbody.
  rewrite (body_records_ext o _ (balance (lines_of (store fs)))) in Hbody
    by (intros a; now apply balance_begin).
  rewrite logged_app in Hbody.
  unfold handle.
  destruct o as [ts src dst amt|ts dst amt|ts dst amt];
    unfold MoveOp_handle, WithdrawOp_handle, DepositOp_handle; cbv zeta;
    rewrite guard_run;
    (destruct (committed_scan _ false (lines_of (store fs))); [reflexivity|]);
    exact Hbody.
Qed.

(** ** Runs of handle, read off their records *)

Lemma appended_logged (fs : files) (recs : list logline) :
  appended fs (logged fs recs) = concat (map line recs).
Proof.
  unfold appended, logged. simpl store.
  rewrite skipn_app, skipn_all, Nat.sub_diag. reflexivity.
Qed.

Lemma lines_of_appended (fs : files) (recs : list logline) :
  forallb wf_line recs = true ->
  lines_of (appended fs (logged fs recs)) = map line recs.
Proof.
  intros H. rewrite appended_logged. now apply lines_of_concat, lines_whole.
Qed.

Lemma eval_already_committed (o : op) (fs : files) (b : bool) :
  eval (already_committed o) fs = Ok b ->
  committed_scan (id o) false (lines_of (store fs)) = b.
Proof. unfold eval. rewrite already_committed_run. simpl. now intros [= ->]. Qed.

Lemma eval_read (a : str) (fs : files) :
  eval (read a) fs = balance (lines_of (store fs)) a.
Proof. reflexivity. Qed.

Lemma read_scan_records_skip (a : str) (recs : list logline) (rest : list str) :
  forallb wf_line recs = true ->
  forallb (fun l => negb (writes_to a l)) recs = true ->
  read_scan a (rev (map line recs) ++ rest) = read_scan a rest.
Proof.
  revert rest. induction recs as [|l recs IH]; intros rest Hwf Hno; [reflexivity|].
  cbn [forallb] in Hwf, Hno.
  apply andb_true_iff in Hwf as [Hl Hwf]. apply andb_true_iff in Hno as [Hn Hno].
  cbn [map rev]. rewrite <- app_assoc. cbn [app].
  rewrite IH by assumption.
  destruct l as [oid|dst n|dst n|e].
  - apply read_scan_begin.
  - rewrite read_scan_write by exact Hl. simpl in Hn.
    apply negb_true_iff in Hn. now rewrite Hn.
  - apply read_scan_read.
  - apply read_scan_commit.
Qed.

Lemma wf_op_debited (o : op) (src : str) (amt : Z) :
  wf_op o = true -> debited o = Some (src, amt) -> is_token src = true.
Proof.
  destruct o; simpl; intros H [= <- <-].
  - apply andb_true_iff in H as [H _]. now apply andb_true_iff in H.
  - now apply andb_true_iff in H.
Qed.


(** ** The shape of a run that ends *)

Lemma body_records_wf (o : op) (rd : str -> result Z) :
  wf_op o = true -> forallb wf_line (fst (body_records o rd)) = true.
Proof.
  intros H.
  destruct o as [ts src dst amt|ts dst amt|ts dst amt]; simpl in H;
    repeat (apply andb_true_iff in H as [H ?]); unfold body_records.
  - destruct (rd src) as [curr|e]; [|reflexivity].
    destruct (curr <? amt).
    + cbn [fst forallb wf_line]. now rewrite H1, insufficient_funds_one_line.
    + destruct (if str_eqb src dst then Ok (curr - amt) else rd dst);
        cbn [fst forallb wf_line]; now rewrite ?H0, ?H1.
  - destruct (rd dst) as [curr|e]; [|reflexivity].
    destruct (curr <? amt); cbn [fst forallb wf_line];
      now rewrite ?H0, ?insufficient_funds_one_line.
  - destruct (rd dst) as [curr|e]; [|reflexivity].
    cbn [fst forallb wf_line]. now rewrite H0.
Qed.

Lemma handle_records_wf (o : op) (write_begin : bool) (rd : str -> result Z) :
  wf_op o = true -> forallb wf_line (handle_records o write_begin rd) = true.
Proof.
  intros H. unfold handle_records, begin_records.
  rewrite forallb_app, body_records_wf by exact H.
  destruct write_begin; [|reflexivity].
  cbn [forallb]. now rewrite wf_op_id_line.
Qed.

(** A body that ends normally logged either a [READ] and the error
    [COMMIT], or reads and writes and the plain [COMMIT]. *)
Lemma body_records_shape (o : op) (rd : str -> result Z) :
  snd (body_records o rd) = Ok tt ->
  (exists src amt curr,
      debited o = Some (src, amt) /\ rd src = Ok curr /\ curr < amt /\
      fst (body_records o rd)
      = [ReadLogLine src curr;
         CommitLogLine (Some (insufficient_funds curr amt))])
  \/ (exists mid,
        fst (body_records o rd) = mid ++ [CommitLogLine None] /\
        forallb data_line mid = true /\
        match debited o with
        | Some (src, amt) => exists curr, rd src = Ok curr /\ amt <= curr
        | None => True
        end).
Proof.
  destruct o as [ts src dst amt|ts dst amt|ts dst amt]; unfold body_records.
  - destruct (rd src) as [curr|e] eqn:E; [|discriminate].
    destruct (Z.ltb_spec curr amt) as [Hlt|Hge].
    + intros _. left. now exists src, amt, curr.
    + destruct (if str_eqb src dst then Ok (curr - amt) else rd dst) as [c|e];
        [|discriminate].
      intros _. right.
      exists [ReadLogLine src curr; WriteLogLine src (curr - amt);
              ReadLogLine dst c; WriteLogLine dst (c + amt)].
      repeat split. simpl. now exists curr.
  - destruct (rd dst) as [curr|e] eqn:E; [|discriminate].
    destruct (Z.ltb_spec curr amt) as [Hlt|Hge]; intros _.
    + left. now exists dst, amt, curr.
    + right. exists [ReadLogLine dst curr; WriteLogLine dst (curr - amt)].
      repeat split. simpl. now exists curr.
  - destruct (rd dst) as [curr|e] eqn:E; [|discriminate]. intros _.
    right. exists [ReadLogLine dst curr; WriteLogLine dst (curr + amt)].
    now repeat split.
Qed.

Lemma committed_scan_found_data (oid : str) (mid : list logline) (rest : list str) :
  forallb data_line mid = true ->
  committed_scan oid true (map line mid ++ rest) = committed_scan oid true rest.
Proof.
  induction mid as [|l mid IH]; [reflexivity|].
  cbn [forallb map app]. intros H. apply andb_true_iff in H as [Hl Hm].
  destruct l; try discriminate.
  - rewrite committed_scan_found_write. now apply IH.
  - rewrite committed_scan_found_read. now apply IH.
Qed.

(** After a run that passed the guard, the guard answers [True] when the
    run logged the plain [COMMIT] and [False] when it logged the error
    [COMMIT]. *)
Lemma committed_scan_after_run (o : op) (ls : list str) (rd : str -> result Z) :
  wf_op o = true ->
  committed_scan (id o) false ls = false ->
  snd (body_records o rd) = Ok tt ->
  committed_scan (id o) false (ls ++ map line (handle_records o true rd))
  = match rev (fst (body_records o rd)) with
    | CommitLogLine None :: _ => true
    | _ => false
    end.
Proof.
  intros Hwf Hc Hok. rewrite committed_scan_app, Hc. cbn [orb].
  unfold handle_records, begin_records. cbn [app map].
  assert (Hb : forall f rest,
             committed_scan (id o) f (line (BeginLogLine (id o)) :: rest)
             = committed_scan (id o) true rest).
  { intros f rest. apply committed_scan_own_begin. now apply id_token. }
  rewrite Hb.
  destruct (body_records_shape o rd Hok)
    as [(src & amt & curr & _ & _ & _ & ->) | (mid & -> & Hmid & _)].
  - cbn [map rev app].
    now rewrite committed_scan_found_read, committed_scan_found_error.
  - rewrite map_app, committed_scan_found_data by exact Hmid.
    rewrite rev_unit. cbn [map]. apply committed_scan_found_commit.
Qed.

Lemma success_commit_logged (fs : files) (recs : list logline) :
  forallb wf_line recs = true ->
  success_commit fs (logged fs recs)
  = match rev recs with
    | CommitLogLine None :: _ => true
    | _ => false
    end.
Proof.
  intros H. unfold success_commit. rewrite lines_of_appended by exact H.
  rewrite <- map_rev. destruct (rev recs) as [|l r]; [reflexivity|].
  cbn [map]. destruct l as [oid|dst n|dst n|[e|]]; reflexivity.
Qed.

Lemma success_commit_same (fs : files) : success_commit fs fs = false.
Proof.
  unfold success_commit, appended. now rewrite skipn_all.
Qed.

(** *** Calling handle again *)

(** What the second of two calls of [handle()] does: nothing when the
    first call was stopped by the guard or logged the plain [COMMIT]; the
    whole transaction again when the first logged the error [COMMIT]. *)
Lemma handle_again (o : op) (fs : files) :
  ends_nl (store fs) = true -> wf_op o = true ->
  eval (handle o true) fs = Ok tt ->
  let fs1 := exec (handle o true) fs in
  (eval (already_committed o) fs = Ok true \/ success_commit fs fs1 = true ->
   handle o true fs1 = (Ok tt, fs1))
  /\ (eval (already_committed o) fs = Ok false -> success_commit fs fs1 = false ->
      eval (already_committed o) fs1 = Ok false
      /\ handle o true fs1 = (Ok tt, logged fs1 (handle_records o true
                                (balance (lines_of (store fs)))))
      /\ appended fs fs1 = appended fs1 (exec (handle o true) fs1)).
Proof.
  intros Hs Hwf. unfold eval, exec.
  rewrite already_committed_run. cbn [fst].
  rewrite (handle_run o true fs Hs Hwf).
  destruct (committed_scan (id o) false (lines_of (store fs))) eqn:Hc.
  - cbn [fst snd]. intros _. split.
    + intros _. now rewrite handle_run, Hc.
    + intros [=].
  - cbv zeta. cbn [fst snd]. intros Hok.
    set (rd := balance (lines_of (store fs))) in *.
    pose proof (handle_records_wf o true rd Hwf) as Hrecs.
    pose proof (ends_nl_logged fs _ Hs Hrecs) as Hs1.
    assert (Hc1 : committed_scan (id o) false
                    (lines_of (store (logged fs (handle_records o true rd))))
                  = success_commit fs (logged fs (handle_records o true rd))).
    { rewrite lines_of_logged, committed_scan_after_run by assumption.
      rewrite success_commit_logged by exact Hrecs.
      unfold handle_records, begin_records. rewrite rev_app_distr.
      destruct (body_records_shape o rd Hok)
        as [(src & amt & curr & _ & _ & _ & ->) | (mid & -> & _ & _)];
        [reflexivity|now rewrite rev_unit]. }
    assert (Hrd : forall a, balance (lines_of (store (logged fs (handle_records o true rd)))) a
                            = rd a \/ success_commit fs (logged fs (handle_records o true rd)) = true).
    { intros a. rewrite success_commit_logged by exact Hrecs.
      rewrite balance_logged by assumption.
      unfold handle_records, begin_records. rewrite rev_app_distr.
      destruct (body_records_shape o rd Hok)
        as [(src & amt & curr & _ & _ & _ & ->) | (mid & -> & _ & _)].
      - left. cbn [map rev app].
        now rewrite read_scan_commit, read_scan_read, read_scan_begin.
      - right. now rewrite rev_unit. }
    split.
    + intros [[=]|Hsucc]. rewrite handle_run by assumption.
      now rewrite Hc1, Hsucc.
    + intros _ Hfail. rewrite Hfail in Hc1.
      rewrite (handle_run o true _ Hs1 Hwf), Hc1. cbv zeta. cbn [fst snd].
      assert (Hext : forall a,
                 balance (lines_of (store (logged fs (handle_records o true rd)))) a
                 = rd a).
      { intros a. destruct (Hrd a) as [H|H]; [exact H|congruence]. }
      pose proof (body_records_ext o _ rd Hext) as Hbr.
      assert (Hhr : handle_records o true
                      (balance (lines_of (store (logged fs (handle_records o true rd)))))
                    = handle_records o true rd).
      { unfold handle_records at 1 3. now rewrite Hbr. }
      rewrite Hbr, Hhr.
      split; [|split].
      * rewrite already_committed_run. cbn [fst]. now rewrite Hc1.
      * now rewrite Hok.
      * now rewrite !appended_logged.
Qed.

Lemma handle_insufficient_run (o : op) (fs : files) (src : str) (amt curr : Z) :
  ends_nl (store fs) = true -> wf_op o = true ->
  debited o = Some (src, amt) ->
  eval (already_committed o) fs = Ok false ->
  eval (read src) fs = Ok curr -> curr < amt ->
  let recs := [BeginLogLine (id o); ReadLogLine src curr;
               CommitLogLine (Some (insufficient_funds curr amt))] in
  forallb wf_line recs = true
  /\ handle_records o true (balance (lines_of (store fs))) = recs
  /\ handle o true fs = (Ok tt, logged fs recs).
Proof.
  intros Hs Hwf Hd Hc Hr Hlt recs.
  pose proof (wf_op_debited o src amt Hwf Hd) as Hsrc.
  assert (Hrecs : handle_records o true (balance (lines_of (store fs))) = recs
                  /\ snd (body_records o (balance (lines_of (store fs)))) = Ok tt).
  { rewrite eval_read in Hr. apply Z.ltb_lt in Hlt.
    unfold handle_records, begin_records.
    destruct o; simpl in Hd; inversion Hd; subst; unfold body_records;
      rewrite Hr, Hlt; split; reflexivity. }
  destruct Hrecs as [Hrecs Hok].
  split; [|split; [exact Hrecs|]].
  - rewrite <- Hrecs. now apply handle_records_wf.
  - rewrite handle_run by assumption.
    rewrite (eval_already_committed _ _ _ Hc). cbv zeta.
    now rewrite Hrecs, Hok.
Qed.

(** ** Operation ids and parse_op_from_id *)

Lemma id_with_text_ts (o : op) : id (with_text_ts o) = id o.
Proof. destruct o; reflexivity. Qed.

Lemma wf_op_with_text_ts (o : op) : wf_op (with_text_ts o) = wf_op o.
Proof. destruct o; reflexivity. Qed.

Lemma body_records_with_text_ts (o : op) (rd : str -> result Z) :
  body_records (with_text_ts o) rd = body_records o rd.
Proof. destruct o; reflexivity. Qed.

Lemma py_int_str_of_int (n : Z) : py_int (PyStr (str_of_int n)) = Ok n.
Proof. simpl. now rewrite int_of_str_of_int. Qed.

Lemma parse_op_from_id_id (o : op) :
  id_safe o = true -> parse_op_from_id (id o) = Ok (with_text_ts o).
Proof.
  intros H. unfold parse_op_from_id.
  destruct o as [ts src dst amt|ts dst amt|ts dst amt]; simpl in H;
    repeat (apply andb_true_iff in H as [H ?]).
  - replace (startswith MOVE (id (MoveOp ts src dst amt))) with true
      by (symmetry; apply (startswith_app MOVE)).
    unfold id. rewrite split_on_join; [|easy|].
    + cbn [tl]. unfold MoveOp_init. now rewrite py_int_str_of_int.
    + cbn [forallb]. now rewrite H, H0, H1, str_of_int_no_sep.
  - replace (startswith MOVE (id (WithdrawOp ts dst amt))) with false
      by reflexivity.
    replace (startswith WITHDRAW (id (WithdrawOp ts dst amt))) with true
      by (symmetry; apply (startswith_app WITHDRAW)).
    unfold id. rewrite split_on_join; [|easy|].
    + cbn [tl]. unfold WithdrawOp_init. now rewrite py_int_str_of_int.
    + cbn [forallb]. now rewrite H, H0, str_of_int_no_sep.
  - replace (startswith MOVE (id (DepositOp ts dst amt))) with false
      by reflexivity.
    replace (startswith WITHDRAW (id (DepositOp ts dst amt))) with false
      by reflexivity.
    replace (startswith DEPOSIT (id (DepositOp ts dst amt))) with true
      by (symmetry; apply (startswith_app DEPOSIT)).
    unfold id. rewrite split_on_join; [|easy|].
    + cbn [tl]. unfold DepositOp_init. now rewrite py_int_str_of_int.
    + cbn [forallb]. now rewrite H, H0, str_of_int_no_sep.
Qed.


(** ** Balances along a sequence of operations *)

Ltac scan_records :=
  cbn [map rev app fst];
  repeat first
    [ rewrite read_scan_commit
    | rewrite read_scan_read
    | rewrite read_scan_begin
    | rewrite read_scan_write by assumption ].

Lemma readable_init : readable DataStore_init.
Proof. split; [reflexivity|]. intros a. now exists 0. Qed.

(** One [handle()] on a readable journal: it ends, the journal stays
    readable, and the balance of every account moves by the signed amount
    of the operation when the run logged the plain [COMMIT], and not at
    all otherwise. *)
Lemma handle_step (o : op) (fs : files) :
  readable fs -> wf_op o = true ->
  let fs' := exec (handle o true) fs in
  eval (handle o true) fs = Ok tt
  /\ readable fs'
  /\ forall a z, eval (read a) fs = Ok z ->
       eval (read a) fs'
       = Ok (z + if success_commit fs fs' then delta o a else 0).
Proof.
  intros [Hs Hread] Hwf fs'.
  assert (Hmain : eval (handle o true) fs = Ok tt
                  /\ ends_nl (store fs') = true
                  /\ forall a z, eval (read a) fs = Ok z ->
                       eval (read a) fs'
                       = Ok (z + if success_commit fs fs' then delta o a else 0)).
  { subst fs'. unfold eval at 1, exec.
    rewrite (handle_run o true fs Hs Hwf).
    destruct (committed_scan (id o) false (lines_of (store fs))) eqn:Hc.
    { cbn [fst snd]. repeat split; [exact Hs|].
      intros a z Hz. now rewrite success_commit_same, Z.add_0_r. }
    cbv zeta. cbn [fst snd].
    pose proof (handle_records_wf o true (balance (lines_of (store fs))) Hwf) as Hrecs.
    split; [|split; [now apply ends_nl_logged|]].
    - destruct o as [ts src dst amt|ts dst amt|ts dst amt]; unfold body_records.
      + destruct (Hread src) as [c Hc1]. rewrite eval_read in Hc1. rewrite Hc1.
        destruct (c <? amt); [reflexivity|].
        destruct (str_eqb src dst); [reflexivity|].
        destruct (Hread dst) as [c2 Hc2]. rewrite eval_read in Hc2.
        now rewrite Hc2.
      + destruct (Hread dst) as [c Hc1]. rewrite eval_read in Hc1. rewrite Hc1.
        now destruct (c <? amt).
      + destruct (Hread dst) as [c Hc1]. rewrite eval_read in Hc1. now rewrite Hc1.
    - intros a z Hz. rewrite eval_read in Hz.
      pose proof Hz as Hz'. unfold balance in Hz'.
      rewrite success_commit_logged by exact Hrecs.
      rewrite eval_read, balance_logged by assumption.
      revert Hrecs. unfold handle_records, begin_records, body_records.
      destruct o as [ts src dst amt|ts dst amt|ts dst amt]; simpl in Hwf;
        repeat (apply andb_true_iff in Hwf as [Hwf ?]).
      + destruct (Hread src) as [c Hc1]. rewrite eval_read in Hc1. rewrite Hc1.
        destruct (c <? amt).
        { intros _. scan_records.
          now rewrite Hz', Z.add_0_r. }
        destruct (str_eqb src dst) eqn:Esd.
        * apply str_eqb_eq in Esd. subst dst. intros _. scan_records.
          cbn [delta]. destruct (str_eqb src a) eqn:Ea.
          -- apply str_eqb_eq in Ea. subst a.
             rewrite Hc1 in Hz. injection Hz as ->. f_equal; lia.
          -- rewrite Hz'. f_equal; lia.
        * destruct (Hread dst) as [c2 Hc2]. rewrite eval_read in Hc2. rewrite Hc2.
          intros _. scan_records. cbn [delta].
          destruct (str_eqb dst a) eqn:Eda.
          -- apply str_eqb_eq in Eda. subst a.
             rewrite str_eqb_neq
               by (intros ->; now rewrite str_eqb_refl in Esd).
             rewrite Hc2 in Hz. injection Hz as ->. f_equal; lia.
          -- destruct (str_eqb src a) eqn:Esa.
             ++ apply str_eqb_eq in Esa. subst a.
                rewrite Hc1 in Hz. injection Hz as ->. f_equal; lia.
             ++ rewrite Hz'. f_equal; lia.
      + destruct (Hread dst) as [c Hc1]. rewrite eval_read in Hc1. rewrite Hc1.
        destruct (c <? amt); intros _; scan_records; cbn [delta].
        * now rewrite Hz', Z.add_0_r.
        * destruct (str_eqb dst a) eqn:Ea.
          -- apply str_eqb_eq in Ea. subst a.
             rewrite Hc1 in Hz. injection Hz as ->. f_equal; lia.
          -- rewrite Hz'. f_equal; lia.
      + destruct (Hread dst) as [c Hc1]. rewrite eval_read in Hc1. rewrite Hc1.
        intros _. scan_records. cbn [delta].
        destruct (str_eqb dst a) eqn:Ea.
        * apply str_eqb_eq in Ea. subst a.
          rewrite Hc1 in Hz. injection Hz as ->. f_equal.
        * rewrite Hz'. f_equal; lia. }
  destruct Hmain as (Hok & Hs' & Hbal).
  split; [exact Hok|]. split; [|exact Hbal].
  split; [exact Hs'|]. intros a. destruct (Hread a) as [z Hz].
  eexists. exact (Hbal a z Hz).
Qed.

Lemma run_ops_cons (o : op) (rest : list op) (fs : files) :
  eval (handle o true) fs = Ok tt ->
  run_ops (o :: rest) fs = run_ops rest (exec (handle o true) fs).
Proof.
  unfold eval, exec. cbn [run_ops]. unfold bind.
  destruct (handle o true fs) as [r fs']. cbn [fst snd]. now intros ->.
Qed.

(** When a run of [handle()] logs the plain [COMMIT]: the guard let it
    pass and the balance covered the amount. *)
Lemma success_commit_handle (o : op) (fs : files) :
  readable fs -> wf_op o = true ->
  success_commit fs (exec (handle o true) fs)
  = negb (committed_scan (id o) false (lines_of (store fs))) && covered o fs.
Proof.
  intros [Hs Hread] Hwf. unfold exec. rewrite handle_run by assumption.
  destruct (committed_scan (id o) false (lines_of (store fs))).
  { cbn [snd]. apply success_commit_same. }
  cbv zeta. cbn [snd negb andb].
  rewrite success_commit_logged by now apply handle_records_wf.
  unfold handle_records, begin_records, covered, body_records.
  destruct o as [ts src dst amt|ts dst amt|ts dst amt]; cbn [debited].
  - destruct (Hread src) as [c Hc]. rewrite Hc. rewrite eval_read in Hc.
    rewrite Hc. destruct (c <? amt); [reflexivity|].
    destruct (str_eqb src dst); [reflexivity|].
    destruct (Hread dst) as [c2 Hc2]. rewrite eval_read in Hc2.
    now rewrite Hc2.
  - destruct (Hread dst) as [c Hc]. rewrite Hc. rewrite eval_read in Hc.
    rewrite Hc. now destruct (c <? amt).
  - destruct (Hread dst) as [c Hc]. rewrite eval_read in Hc. now rewrite Hc.
Qed.

(** ** The journal and the ledger *)

(** *** Where a text can occur *)

Lemma startswith_app_l (sub s q : str) :
  startswith sub s = true -> startswith sub (s ++ q) = true.
Proof.
  revert s. induction sub as [|x sub IH]; intros s H; [reflexivity|].
  destruct s as [|y s]; [discriminate|].
  simpl in *. apply andb_true_iff in H as [-> H]. now apply IH.
Qed.

Lemma contains_app_l (sub s q : str) :
  contains sub s = true -> contains sub (s ++ q) = true.
Proof.
  induction s as [|y s IH]; intros H.
  - destruct sub; [now destruct q|discriminate].
  - change (contains sub (y :: s))
      with (startswith sub (y :: s) || contains sub s) in H.
    change (contains sub ((y :: s) ++ q))
      with (startswith sub ((y :: s) ++ q) || contains sub (s ++ q)).
    apply orb_true_iff in H as [H|H].
    + now rewrite (startswith_app_l _ _ q H).
    + rewrite (IH H). apply orb_true_r.
Qed.

Lemma contains_inside (sub p s q : str) :
  contains sub s = true -> contains sub (p ++ s ++ q) = true.
Proof. intros H. now apply contains_app_r, contains_app_l. Qed.

(** A text without the character [c] starts a text with a [c] in it only
    before that [c]. *)
Lemma startswith_before (c : ascii) (sub p q : str) :
  forallb (fun x => negb (Ascii.eqb x c)) sub = true ->
  startswith sub (p ++ c :: q) = startswith sub p.
Proof.
  revert sub. induction p as [|a p IH]; intros sub H.
  - destruct sub as [|x sub]; [reflexivity|].
    simpl in *. apply andb_true_iff in H as [Hx _].
    apply negb_true_iff in Hx. now rewrite Hx.
  - destruct sub as [|x sub]; [reflexivity|].
    simpl in *. apply andb_true_iff in H as [_ H]. now rewrite IH.
Qed.

Lemma contains_around (c : ascii) (sub p q : str) :
  forallb (fun x => negb (Ascii.eqb x c)) sub = true ->
  contains sub (p ++ c :: q) = contains sub p || contains sub q.
Proof.
  intros H. induction p as [|a p IH].
  - destruct sub as [|x sub]; [now destruct q|].
    simpl in H. apply andb_true_iff in H as [Hx _].
    apply negb_true_iff in Hx. simpl. now rewrite Hx.
  - change ((a :: p) ++ c :: q) with (a :: (p ++ c :: q)).
    change (contains sub (a :: (p ++ c :: q)))
      with (startswith sub ((a :: p) ++ c :: q) || contains sub (p ++ c :: q)).
    rewrite startswith_before by exact H. rewrite IH.
    change (contains sub (a :: p)) with (startswith sub (a :: p) || contains sub p).
    now rewrite orb_assoc.
Qed.

Lemma startswith_no_sep (sub s : str) :
  startswith sub s = true -> no_sep s = true -> no_sep sub = true.
Proof.
  revert s. induction sub as [|x sub IH]; intros s H Hs; [reflexivity|].
  destruct s as [|y s]; [discriminate|].
  simpl in *. apply andb_true_iff in H as [Hxy H].
  apply andb_true_iff in Hs as [Hy Hs].
  apply Ascii.eqb_eq in Hxy. subst y. rewrite Hy. now apply (IH s).
Qed.

(** A text with the separator in it occurs in no text without one. *)
Lemma contains_no_sep (sub s : str) :
  no_sep sub = false -> no_sep s = true -> contains sub s = false.
Proof.
  intros Hsub. induction s as [|y s IH]; intros Hs.
  - destruct sub; [discriminate|reflexivity].
  - simpl. rewrite IH by (simpl in Hs; now apply andb_true_iff in Hs).
    rewrite orb_false_r.
    destruct (startswith sub (y :: s)) eqn:E; [|reflexivity].
    apply startswith_no_sep in E; [congruence|exact Hs].
Qed.

Lemma no_sep_app (a b : str) : no_sep (a ++ b) = no_sep a && no_sep b.
Proof. apply forallb_app. Qed.

Lemma no_space_blank (s : str) :
  no_space s = true -> forallb (fun x => negb (Ascii.eqb x " ")) s = true.
Proof.
  apply forallb_impl. intros x Hx.
  destruct (Ascii.eqb_spec x " "%char) as [->|_]; [discriminate Hx|reflexivity].
Qed.

Lemma contains_join_part (sub part : str) (parts : list str) :
  In part parts -> contains sub part = true ->
  contains sub (join ID_SEPARATOR parts) = true.
Proof.
  intros Hin H. induction parts as [|p rest IH]; [easy|].
  destruct rest as [|q rest].
  - destruct Hin as [->|[]]. exact H.
  - change (join ID_SEPARATOR (p :: q :: rest))
      with (p ++ ID_SEPARATOR :: join ID_SEPARATOR (q :: rest)).
    destruct Hin as [->|Hin].
    + now apply contains_app_l.
    + apply contains_app_r.
      apply (contains_app_r sub [ID_SEPARATOR]), IH, Hin.
Qed.

(** *** The id of the operation in the lines of its records *)

Section Scan.

Variable oid : str.
Hypothesis oid_token : is_token oid = true.
Hypothesis oid_sep : no_sep oid = false.

Lemma contains_keyword_field (k x : str) :
  no_sep k = true -> contains oid (k ++ lit " " ++ x) = contains oid x.
Proof.
  intros Hk. change (k ++ lit " " ++ x) with (k ++ " "%char :: x).
  rewrite contains_around by now apply no_space_blank, is_token_no_space.
  now rewrite (contains_no_sep oid k).
Qed.

Lemma contains_data (k a : str) (n : Z) :
  no_sep k = true ->
  contains oid (k ++ lit " " ++ a ++ lit " " ++ str_of_int n) = contains oid a.
Proof.
  intros Hk. rewrite contains_keyword_field by exact Hk.
  change (a ++ lit " " ++ str_of_int n) with (a ++ " "%char :: str_of_int n).
  rewrite contains_around by now apply no_space_blank, is_token_no_space.
  rewrite (contains_no_sep oid (str_of_int n)); [apply orb_false_r|exact oid_sep|].
  apply str_of_int_no_sep.
Qed.

Lemma scan_begin (i : str) (found : bool) (rest : list str) :
  is_token i = true ->
  committed_scan oid found (line (BeginLogLine i) :: rest)
  = committed_scan oid (found || contains oid i) rest.
Proof.
  intros Hi. rewrite committed_scan_cons, strip_begin by exact Hi.
  rewrite contains_keyword_field by reflexivity.
  replace (str_eqb (BEGIN ++ lit " " ++ i) COMMIT) with false by reflexivity.
  rewrite andb_false_r.
  now destruct (contains oid i), found.
Qed.

Lemma scan_read (a : str) (n : Z) (found : bool) (rest : list str) :
  committed_scan oid found (line (ReadLogLine a n) :: rest)
  = committed_scan oid (found || contains oid a) rest.
Proof.
  rewrite committed_scan_cons, strip_read.
  rewrite contains_data by reflexivity.
  replace (str_eqb (READ ++ lit " " ++ a ++ lit " " ++ str_of_int n) COMMIT)
    with false by reflexivity.
  rewrite andb_false_r.
  now destruct (contains oid a), found.
Qed.

Lemma scan_write (a : str) (n : Z) (found : bool) (rest : list str) :
  committed_scan oid found (line (WriteLogLine a n) :: rest)
  = committed_scan oid (found || contains oid a) rest.
Proof.
  rewrite committed_scan_cons, strip_write.
  rewrite contains_data by reflexivity.
  replace (str_eqb (WRITE ++ lit " " ++ a ++ lit " " ++ str_of_int n) COMMIT)
    with false by reflexivity.
  rewrite andb_false_r.
  now destruct (contains oid a), found.
Qed.

Lemma scan_error (curr amt : Z) (found : bool) (rest : list str) :
  committed_scan oid found
    (line (CommitLogLine (Some (insufficient_funds curr amt))) :: rest)
  = committed_scan oid found rest.
Proof.
  rewrite committed_scan_cons, strip_commit_error.
  rewrite (contains_no_sep oid); [|exact oid_sep|].
  - replace (str_eqb (COMMIT ++ lit " " ++ insufficient_funds curr amt) COMMIT)
      with false by reflexivity.
    now rewrite andb_false_r.
  - unfold insufficient_funds.
    rewrite !no_sep_app, !str_of_int_no_sep. reflexivity.
Qed.

Lemma scan_commit (found : bool) (rest : list str) :
  committed_scan oid found (line (CommitLogLine None) :: rest)
  = found || committed_scan oid found rest.
Proof.
  rewrite committed_scan_cons.
  change (strip (line (CommitLogLine None))) with COMMIT.
  rewrite (contains_no_sep oid COMMIT oid_sep eq_refl), str_eqb_refl.
  now destruct found.
Qed.

Lemma found_absorb (found hit part : bool) :
  (part = true -> hit = true) -> found || hit || part = found || hit.
Proof.
  destruct found, hit, part; intros H; try reflexivity.
  now discriminate (H eq_refl).
Qed.

(** After the [BEGIN] of an operation, its reads and writes leave the
    flag as it is: an id that occurs in an account occurs in the id. *)
Lemma scan_read_in (i a : str) (n : Z) (found : bool) (rest : list str) :
  (contains oid a = true -> contains oid i = true) ->
  committed_scan oid (found || contains oid i) (line (ReadLogLine a n) :: rest)
  = committed_scan oid (found || contains oid i) rest.
Proof. intros H. now rewrite scan_read, found_absorb. Qed.

Lemma scan_write_in (i a : str) (n : Z) (found : bool) (rest : list str) :
  (contains oid a = true -> contains oid i = true) ->
  committed_scan oid (found || contains oid i) (line (WriteLogLine a n) :: rest)
  = committed_scan oid (found || contains oid i) rest.
Proof. intros H. now rewrite scan_write, found_absorb. Qed.

(** The lines of one transaction: they set the flag when the id of the
    operation holds [oid], and the scan returns there when the flag is set
    and the balance covered the operation. *)
Lemma transaction_scan (o : op) (rd : str -> result Z) (bal : str -> Z)
    (found : bool) (rest : list str) :
  wf_op o = true -> (forall a, rd a = Ok (bal a)) ->
  committed_scan oid found (map line (handle_records o true rd) ++ rest)
  = ((found || contains oid (id o)) && affordable o bal)
    || committed_scan oid (found || contains oid (id o)) rest.
Proof.
  intros Hwf Hrd.
  pose proof (id_token o Hwf) as Hid.
  unfold handle_records, begin_records, body_records, affordable.
  destruct o as [ts src dst amt|ts dst amt|ts dst amt]; cbn [debited];
    rewrite ?Hrd.
  - assert (Hsrc : contains oid src = true ->
                   contains oid (id (MoveOp ts src dst amt)) = true).
    { apply contains_join_part. simpl. tauto. }
    assert (Hdst : contains oid dst = true ->
                   contains oid (id (MoveOp ts src dst amt)) = true).
    { apply contains_join_part. simpl. tauto. }
    destruct (bal src <? amt); cbn [negb].
    + cbn [fst app map].
      rewrite scan_begin, scan_read_in, scan_error by assumption.
      now rewrite andb_false_r.
    + destruct (str_eqb src dst); cbn [fst app map];
        rewrite scan_begin by exact Hid;
        rewrite scan_read_in, scan_write_in, scan_read_in, scan_write_in,
          scan_commit by assumption;
        now rewrite andb_true_r.
  - assert (Hdst : contains oid dst = true ->
                   contains oid (id (WithdrawOp ts dst amt)) = true).
    { apply contains_join_part. simpl. tauto. }
    destruct (bal dst <? amt); cbn [negb fst app map];
      rewrite scan_begin by exact Hid.
    + rewrite scan_read_in, scan_error by assumption.
      now rewrite andb_false_r.
    + rewrite scan_read_in, scan_write_in, scan_commit by assumption.
      now rewrite andb_true_r.
  - assert (Hdst : contains oid dst = true ->
                   contains oid (id (DepositOp ts dst amt)) = true).
    { apply contains_join_part. simpl. tauto. }
    cbn [fst app map]. rewrite scan_begin by exact Hid.
    rewrite scan_read_in, scan_write_in, scan_commit by assumption.
    now rewrite andb_true_r.
Qed.

End Scan.
(** *** The ledger *)

Lemma total_app (a : str) (xs ys : list op) :
  total a (xs ++ ys) = total a xs + total a ys.
Proof.
  unfold total. induction xs as [|x xs IH]; [reflexivity|].
  cbn [app map fold_right]. rewrite IH. lia.
Qed.

Lemma committed_of_snoc (h : history) (o : op) (ok : bool) :
  committed_of (h ++ [(o, ok)]) = committed_of h ++ (if ok then [o] else []).
Proof.
  unfold committed_of. rewrite filter_app, map_app. now destruct ok.
Qed.

Lemma total_snoc (a : str) (h : history) (o : op) (ok : bool) :
  total a (committed_of (h ++ [(o, ok)]))
  = total a (committed_of h) + (if ok then delta o a else 0).
Proof.
  rewrite committed_of_snoc, total_app. destruct ok; unfold total; simpl; lia.
Qed.

Lemma marked_snoc (oid : str) (found : bool) (h : history) (o : op) (ok : bool) :
  marked oid found (h ++ [(o, ok)]) = marked oid found h || contains oid (id o).
Proof. unfold marked. now rewrite fold_left_app. Qed.

Lemma sealed_snoc (oid : str) (found : bool) (h : history) (o : op) (ok : bool) :
  sealed oid found (h ++ [(o, ok)])
  = sealed oid found h || ((marked oid found h || contains oid (id o)) && ok).
Proof.
  revert found. induction h as [|[o' ok'] h IH]; intros found.
  - cbn [app sealed marked fold_left]. now rewrite orb_false_r.
  - cbn [app sealed]. rewrite IH. unfold marked. cbn [fold_left fst].
    now rewrite orb_assoc.
Qed.

Lemma id_has_sep (o : op) : no_sep (id o) = false.
Proof. now destruct o. Qed.

Lemma covered_affordable (o : op) (fs : files) (bal : str -> Z) :
  (forall a, eval (read a) fs = Ok (bal a)) -> covered o fs = affordable o bal.
Proof.
  intros H. unfold covered, affordable.
  destruct (debited o) as [[src amt]|]; [|reflexivity]. now rewrite H.
Qed.

Lemma tells_init : tells DataStore_init [].
Proof. repeat split. Qed.

Lemma tells_readable (fs : files) (h : history) : tells fs h -> readable fs.
Proof.
  intros (Hs & Hbal & _). split; [exact Hs|].
  intros a. eexists. apply Hbal.
Qed.

Lemma tells_guard (fs : files) (h : history) (o : op) :
  tells fs h -> wf_op o = true ->
  committed_scan (id o) false (lines_of (store fs)) = sealed (id o) false h.
Proof.
  intros (_ & _ & Hscan) Hwf.
  specialize (Hscan (id o) false [] (id_token o Hwf) (id_has_sep o)).
  rewrite app_nil_r in Hscan. rewrite Hscan. apply orb_false_r.
Qed.

(** One [handle()] on a journal that tells a history: it ends, and the
    journal tells the history with the operation settled. *)
Lemma handle_tells (o : op) (fs : files) (h : history) :
  tells fs h -> wf_op o = true ->
  eval (handle o true) fs = Ok tt
  /\ tells (exec (handle o true) fs) (settle_one h o).
Proof.
  intros Ht Hwf.
  pose proof (tells_readable fs h Ht) as Hfs.
  pose proof (tells_guard fs h o Ht Hwf) as Hguard.
  destruct (handle_step o fs Hfs Hwf) as (Hok & Hfs' & Hstep).
  pose proof (success_commit_handle o fs Hfs Hwf) as Hsucc.
  destruct Ht as (Hs & Hbal & Hscan).
  rewrite (covered_affordable o fs _ Hbal), Hguard in Hsucc.
  split; [exact Hok|]. unfold settle_one.
  assert (Hrun : exec (handle o true) fs
                 = if sealed (id o) false h then fs
                   else logged fs (handle_records o true
                                     (balance (lines_of (store fs))))).
  { unfold exec. rewrite handle_run, Hguard by assumption.
    now destruct (sealed (id o) false h). }
  destruct (sealed (id o) false h) eqn:E.
  - rewrite Hrun. now repeat split.
  - cbn [negb andb] in Hsucc. split; [apply Hfs'|]. split.
    + intros a. rewrite (Hstep a _ (Hbal a)), Hsucc. now rewrite total_snoc.
    + intros oid found rest Htok Hsep. rewrite Hrun.
      rewrite lines_of_logged by (exact Hs || now apply handle_records_wf).
      rewrite <- app_assoc, Hscan by assumption.
      rewrite (transaction_scan oid Htok Hsep o _
                 (fun a => total a (committed_of h))) by assumption.
      rewrite sealed_snoc, marked_snoc. now rewrite orb_assoc.
Qed.

(** The loop of the script: it ends, and the journal tells the history
    with every operation settled. *)
Lemma run_ops_tells (ops : list op) :
  forall fs h, tells fs h -> forallb wf_op ops = true ->
  eval (run_ops ops) fs = Ok tt
  /\ tells (exec (run_ops ops) fs) (settle ops h).
Proof.
  induction ops as [|o rest IH]; intros fs h Ht Hwf.
  - now split.
  - cbn [forallb] in Hwf. apply andb_true_iff in Hwf as [Ho Hrest].
    destruct (handle_tells o fs h Ht Ho) as (Hok & Ht').
    destruct (IH _ _ Ht' Hrest) as (Hok' & Ht'').
    unfold eval at 1, exec at 1. rewrite (run_ops_cons o rest fs Hok).
    split; [exact Hok'|exact Ht''].
Qed.

(** *** Sequences in which no operation is taken for done *)

Lemma marked_true (oid : str) (h : history) : marked oid true h = true.
Proof.
  unfold marked. induction h as [|e h IH]; [reflexivity|exact IH].
Qed.

Lemma sealed_unmarked (oid : str) (h : history) :
  forall found, marked oid found h = false -> sealed oid found h = false.
Proof.
  induction h as [|[o ok] h IH]; intros found H; [reflexivity|].
  change (marked oid found ((o, ok) :: h))
    with (marked oid (found || contains oid (id o)) h) in H.
  cbn [sealed]. destruct (found || contains oid (id o)) eqn:E.
  - now rewrite marked_true in H.
  - now apply IH.
Qed.

Lemma marked_fresh (oid : str) (h : history) :
  forallb (fun e => negb (contains oid (id e))) (map fst h) = true ->
  marked oid false h = false.
Proof.
  induction h as [|[o ok] h IH]; [reflexivity|].
  cbn [map fst forallb]. intros H. apply andb_true_iff in H as [Ho H].
  apply negb_true_iff in Ho.
  change (marked oid false ((o, ok) :: h))
    with (marked oid (false || contains oid (id o)) h).
  rewrite Ho. now apply IH.
Qed.

Lemma settle_fresh (ops : list op) :
  forall h, fresh (map fst h) ops = true ->
  committed_of (settle ops h) = afforded ops (committed_of h).
Proof.
  induction ops as [|o rest IH]; intros h H; [reflexivity|].
  cbn [fresh] in H. apply andb_true_iff in H as [Ho H].
  change (settle (o :: rest) h) with (settle rest (settle_one h o)).
  unfold settle_one.
  rewrite (sealed_unmarked _ _ _ (marked_fresh _ _ Ho)).
  rewrite IH by (now rewrite map_app).
  rewrite committed_of_snoc. cbn [afforded].
  destruct (affordable o (fun a => total a (committed_of h)));
    now rewrite ?app_nil_r.
Qed.

(** ** recover *)

(** *** The lines that readlines returns are whole *)

Lemma universal_newlines_no_cr (s : str) :
  forallb (fun c => negb (Ascii.eqb c cr)) (universal_newlines s) = true.
Proof.
  remember (List.length s) as n eqn:Hn. revert s Hn.
  induction n as [n IH] using lt_wf_ind. intros s Hn.
  destruct s as [|c s]; [reflexivity|].
  cbn [universal_newlines].
  destruct (Ascii.eqb c cr) eqn:Ec.
  - destruct s as [|c' s]; [reflexivity|].
    destruct (Ascii.eqb c' nl).
    + cbn [forallb]. apply andb_true_iff. split; [reflexivity|].
      apply (IH (List.length s)); [simpl in Hn; lia|reflexivity].
    + cbn [forallb]. apply andb_true_iff. split; [reflexivity|].
      apply (IH (List.length (c' :: s))); [simpl in *; lia|reflexivity].
  - cbn [forallb]. rewrite Ec. cbn [negb andb].
    apply (IH (List.length s)); [simpl in Hn; lia|reflexivity].
Qed.

Lemma forallb_rev {A} (f : A -> bool) (l : list A) :
  forallb f l = true -> forallb f (rev l) = true.
Proof.
  rewrite !forallb_forall. intros H x Hx. apply H. now apply in_rev.
Qed.

Lemma lines_go_whole (s : str) :
  forall cur,
    forallb (fun c => negb (Ascii.eqb c cr)) s = true ->
    one_line cur = true -> ends_nl s = true -> (s = [] -> cur = []) ->
    Forall whole (lines_go cur s).
Proof.
  induction s as [|c s IH]; intros cur Hcr Hcur Hs Hnil.
  - rewrite (Hnil eq_refl). constructor.
  - cbn [forallb] in Hcr. apply andb_true_iff in Hcr as [Hc Hcr].
    rewrite lines_go_cons.
    assert (Hs' : s <> [] -> ends_nl s = true).
    { intros Hne. now rewrite <- (ends_nl_cons c s Hne). }
    destruct (Ascii.eqb c nl) eqn:Enl.
    + apply Ascii.eqb_eq in Enl. subst c. constructor.
      * exists (rev cur). split; [reflexivity|].
        now apply forallb_rev.
      * apply IH; try easy. destruct s; [reflexivity|now apply Hs'].
    + assert (Hne : s <> []).
      { intros ->. simpl in Hs. congruence. }
      apply IH; try easy; [|now apply Hs'].
      unfold one_line. cbn [forallb]. rewrite Enl, Hc. exact Hcur.
Qed.

Lemma lines_of_whole (s : str) : ends_nl s = true -> Forall whole (lines_of s).
Proof.
  intros H. unfold lines_of, splitlines. apply lines_go_whole.
  - apply universal_newlines_no_cr.
  - reflexivity.
  - now apply ends_nl_universal.
  - reflexivity.
Qed.

(** *** The rewritten journal *)

Lemma whole_blank : whole NEWLINE.
Proof. exists []. split; reflexivity. Qed.

Lemma rewritten_spaced (ls : list str) : rewritten ls = concat (spaced ls).
Proof.
  unfold rewritten, spaced. induction ls as [|l ls IH]; [reflexivity|].
  cbn [map concat flat_map app]. rewrite IH.
  now rewrite <- app_assoc.
Qed.

Lemma spaced_whole (ls : list str) : Forall whole ls -> Forall whole (spaced ls).
Proof.
  induction 1 as [|l ls Hl _ IH]; [constructor|].
  unfold spaced. cbn [flat_map app].
  constructor; [exact Hl|]. constructor; [apply whole_blank|exact IH].
Qed.

Lemma lines_of_rewritten (ls : list str) :
  Forall whole ls -> lines_of (rewritten ls) = spaced ls.
Proof.
  intros H. rewrite rewritten_spaced. now apply lines_of_concat, spaced_whole.
Qed.

Lemma ends_nl_rewritten (ls : list str) :
  Forall whole ls -> ends_nl (rewritten ls) = true.
Proof.
  intros H. rewrite rewritten_spaced. now apply ends_nl_concat, spaced_whole.
Qed.

Lemma spaced_app (xs ys : list str) : spaced (xs ++ ys) = spaced xs ++ spaced ys.
Proof. apply flat_map_app. Qed.

Lemma read_scan_spaced (a : str) (ls : list str) :
  read_scan a (rev (spaced ls)) = read_scan a (rev ls).
Proof.
  induction ls as [|l ls IH] using rev_ind; [reflexivity|].
  rewrite spaced_app, !rev_app_distr.
  unfold spaced at 1. cbn [flat_map rev app].
  rewrite read_scan_blank. now apply read_scan_cons_congr.
Qed.

Lemma committed_scan_blank (oid : str) (found : bool) (rest : list str) :
  oid <> [] ->
  committed_scan oid found (NEWLINE :: rest) = committed_scan oid found rest.
Proof.
  intros H. rewrite committed_scan_cons.
  change (strip NEWLINE) with (@nil ascii).
  rewrite contains_nil_false by exact H.
  now rewrite andb_false_r.
Qed.

Lemma committed_scan_spaced (oid : str) (found : bool) (ls : list str) :
  oid <> [] ->
  committed_scan oid found (spaced ls) = committed_scan oid found ls.
Proof.
  intros H. revert found. induction ls as [|l ls IH]; intros found; [reflexivity|].
  unfold spaced. cbn [flat_map app]. fold (spaced ls).
  rewrite !(committed_scan_cons _ _ l).
  destruct ((if contains oid (strip l) then true else found)
            && str_eqb (strip l) COMMIT); [reflexivity|].
  rewrite committed_scan_blank by exact H. apply IH.
Qed.

(** *** The last BEGIN *)

Lemma fold_no_begin (post : list str) :
  forall (n : nat) (acc : option nat),
    forallb (fun l => negb (startswith BEGIN l)) post = true ->
    fold_left
      (fun acc p => if startswith BEGIN (snd p) then Some (fst p) else acc)
      (combine (seq n (List.length post)) post) acc = acc.
Proof.
  induction post as [|l post IH]; intros n acc H; [reflexivity|].
  cbn [forallb] in H. apply andb_true_iff in H as [Hl Hp].
  apply negb_true_iff in Hl.
  cbn [List.length seq combine fold_left snd fst]. rewrite Hl. now apply IH.
Qed.

Lemma last_begin_idx_found (pre : list str) (l : str) (post : list str) :
  startswith BEGIN l = true ->
  forallb (fun x => negb (startswith BEGIN x)) post = true ->
  last_begin_idx (pre ++ l :: post) = Some (List.length pre).
Proof.
  intros Hl Hp. unfold last_begin_idx, enumerate.
  assert (H : forall n acc,
             fold_left
               (fun acc p => if startswith BEGIN (snd p) then Some (fst p) else acc)
               (combine (seq n (List.length (pre ++ l :: post))) (pre ++ l :: post)) acc
             = Some (n + List.length pre)%nat).
  { induction pre as [|p pre IH]; intros n acc.
    - cbn [app List.length seq combine fold_left snd fst]. rewrite Hl.
      rewrite fold_no_begin by exact Hp. f_equal. lia.
    - cbn [app List.length seq combine fold_left].
      rewrite IH. f_equal. simpl. lia. }
  apply (H 0%nat None).
Qed.

Lemma last_begin_idx_none (ls : list str) :
  forallb (fun x => negb (startswith BEGIN x)) ls = true ->
  last_begin_idx ls = None.
Proof. intros H. unfold last_begin_idx, enumerate. now apply fold_no_begin. Qed.

Lemma readlines_run (fs : files) : readlines fs = (Ok (lines_of (store fs)), fs).
Proof. reflexivity. Qed.

(** The first part of [recover] on a journal whose last [BEGIN] line is
    [l]: the journal becomes the lines up to [l], each with one more line
    feed. *)
Lemma recover_truncate_run (fs : files) (pre : list str) (l : str) (post : list str) :
  lines_of (store fs) = pre ++ l :: post ->
  startswith BEGIN l = true ->
  forallb (fun x => negb (startswith BEGIN x)) post = true ->
  recover_truncate fs
  = (Ok (Some (pre ++ [l], List.length pre)),
     mkFiles (rewritten (pre ++ [l])) None).
Proof.
  intros Hls Hl Hp. unfold recover_truncate.
  rewrite (bind_run _ _ _ _ _ (readlines_run fs)), Hls.
  rewrite last_begin_idx_found by assumption.
  assert (Hf : firstn (List.length pre + 1) (pre ++ l :: post) = pre ++ [l]).
  { rewrite firstn_app, firstn_all2 by lia.
    replace (List.length pre + 1 - List.length pre)%nat with 1%nat by lia.
    reflexivity. }
  rewrite Hf. reflexivity.
Qed.

Lemma split_two (k a : str) :
  is_token k = true -> is_token a = true ->
  split (k ++ lit " " ++ a ++ NEWLINE) = [k; a].
Proof.
  intros Hk Ha. unfold split, lit, NEWLINE. simpl.
  now rewrite !split_go_token.
Qed.

Lemma begin_oid_last (pre : list str) (oid : str) :
  is_token oid = true ->
  begin_oid (pre ++ [line (BeginLogLine oid)]) (List.length pre) = Ok oid.
Proof.
  intros H. unfold begin_oid.
  rewrite nth_error_app2, Nat.sub_diag by lia. cbn [nth_error].
  unfold line. now rewrite split_two.
Qed.
Lemma startswith_begin_line (l : logline) :
  is_begin l = false -> startswith BEGIN (line l) = false.
Proof. destruct l; [discriminate|reflexivity..]. Qed.

Lemma no_begin_lines (recs : list logline) :
  forallb (fun l => negb (is_begin l)) recs = true ->
  forallb (fun x => negb (startswith BEGIN x)) (map line recs) = true.
Proof.
  induction recs as [|l recs IH]; [reflexivity|].
  cbn [forallb map]. intros H. apply andb_true_iff in H as [Hl Hr].
  apply negb_true_iff in Hl. rewrite (startswith_begin_line l Hl).
  now apply IH.
Qed.

Lemma body_records_no_begin (o : op) (rd : str -> result Z) :
  forallb (fun l => negb (is_begin l)) (fst (body_records o rd)) = true.
Proof.
  destruct o as [ts src dst amt|ts dst amt|ts dst amt]; unfold body_records.
  - destruct (rd src) as [c|e]; [|reflexivity].
    destruct (c <? amt); [reflexivity|].
    now destruct (if str_eqb src dst then Ok (c - amt) else rd dst).
  - destruct (rd dst) as [c|e]; [|reflexivity]. now destruct (c <? amt).
  - now destruct (rd dst).
Qed.

Lemma forallb_firstn {A} (f : A -> bool) (n : nat) (l : list A) :
  forallb f l = true -> forallb f (firstn n l) = true.
Proof.
  revert n. induction l as [|x l IH]; intros [|n] H; try reflexivity.
  cbn [forallb firstn] in *. apply andb_true_iff in H as [Hx Hl].
  now rewrite Hx, IH.
Qed.

Lemma lift_run {A} (r : A) (fs : files) : lift (Ok r) fs = (Ok r, fs).
Proof. reflexivity. Qed.

(** [recover] on a journal that ends with the [BEGIN] of an operation the
    guard lets pass and any of its reads and writes: the journal is cut
    after the [BEGIN] and rewritten, and the body of the operation runs
    from there as it runs after the [BEGIN] in [handle()]. *)
Lemma recover_cut (o : op) (fs0 : files) (post : list logline) :
  ends_nl (store fs0) = true -> wf_op o = true -> id_safe o = true ->
  committed_scan (id o) false (lines_of (store fs0)) = false ->
  forallb wf_line post = true ->
  forallb (fun l => negb (is_begin l)) post = true ->
  let rd := balance (lines_of (store fs0)) in
  let kept := lines_of (store fs0) ++ [line (BeginLogLine (id o))] in
  recover (logged fs0 (BeginLogLine (id o) :: post))
  = (snd (body_records o rd),
     logged (mkFiles (rewritten kept) None) (fst (body_records o rd))).
Proof.
  intros Hs Hwf Hsafe Hc Hpost Hnb rd kept.
  pose proof (id_token o Hwf) as Hid.
  pose proof (wf_op_id_line o Hwf) as Hb.
  assert (Hkept : Forall whole kept).
  { apply Forall_app. split; [now apply lines_of_whole|].
    constructor; [now apply line_whole|constructor]. }
  assert (Hlines : lines_of (store (logged fs0 (BeginLogLine (id o) :: post)))
                   = lines_of (store fs0) ++ line (BeginLogLine (id o)) :: map line post).
  { rewrite lines_of_logged; [reflexivity|exact Hs|].
    cbn [forallb]. now rewrite Hb. }
  unfold recover.
  rewrite (bind_run _ _ _ _ _
             (recover_truncate_run _ _ _ _ Hlines (startswith_app BEGIN _)
                (no_begin_lines _ Hnb))).
  fold kept. unfold kept at 1. rewrite begin_oid_last by exact Hid.
  rewrite (bind_run _ _ _ _ _ (lift_run _ _)).
  rewrite parse_op_from_id_id by exact Hsafe.
  rewrite (bind_run _ _ _ _ _ (lift_run _ _)).
  rewrite handle_run;
    [|now apply ends_nl_rewritten|now rewrite wf_op_with_text_ts].
  cbn [store]. rewrite lines_of_rewritten by exact Hkept.
  rewrite id_with_text_ts.
  assert (Hid' : id o <> []) by now apply is_token_nonempty.
  rewrite committed_scan_spaced by exact Hid'.
  unfold kept at 1. rewrite committed_scan_app, Hc. cbn [orb].
  rewrite committed_scan_own_begin by exact Hid. cbn [committed_scan].
  cbv zeta. unfold handle_records, begin_records. cbn [app].
  rewrite body_records_with_text_ts.
  rewrite (body_records_ext o (balance (spaced kept)) rd); [reflexivity|].
  intros a. unfold balance, rd. rewrite read_scan_spaced.
  unfold kept. rewrite rev_unit. apply read_scan_begin.
Qed.





(** C9: [read] looks at [WRITE] lines only. On every journal that ends,
    after any whole lines, with the record [WRITE a v] followed by records
    none of which is a [WRITE] for [a], [read(a)] is [v]: whether a
    [COMMIT] follows, or a [BEGIN] precedes, plays no part, so the value of
    a transaction that is still open is returned all the same. *)
Theorem read_ignores_commit
    (pre : str) (bk : option str) (a : str) (v : Z) (post : list logline) :
  ends_nl pre = true -> is_token a = true ->
  forallb wf_line post = true ->
  forallb (fun l => negb (writes_to a l)) post = true ->
  eval (read a)
    (mkFiles (pre ++ concat (map line (WriteLogLine a v :: post))) bk)
  = Ok v.
Proof.
  intros Hpre Ha Hwf Hno.
  change (mkFiles (pre ++ concat (map line (WriteLogLine a v :: post))) bk)
    with (logged (mkFiles pre bk) (WriteLogLine a v :: post)).
  rewrite eval_read, balance_logged;
    [|exact Hpre|cbn [forallb wf_line]; now rewrite Ha].
  cbn [map rev]. rewrite <- app_assoc. cbn [app].
  rewrite read_scan_records_skip by assumption.
  rewrite read_scan_write by exact Ha. now rewrite str_eqb_refl.
Qed.

Lemma read_ignores_commit_witness :
  let o := DepositOp (PyInt 1) (lit "A") 5 in
  let open := mkFiles
    (line (BeginLogLine (id o)) ++
     concat (map line [WriteLogLine (lit "A") 5; ReadLogLine (lit "B") 0])) None in
  eval (read (lit "A")) open = Ok 5
  /\ eval (already_committed o) open = Ok false.
Proof.
  intros o open. split.
  - apply (read_ignores_commit (line (BeginLogLine (id o))) None (lit "A") 5
             [ReadLogLine (lit "B") 0]); reflexivity.
  - reflexivity.
Defined.
(** C8, as the code has it: for every operation whose timestamp, as its id
    spells it, and whose accounts are free of [ID_SEPARATOR],
    [parse_op_from_id(op.id())] returns the operation of the same class
    with the same accounts and amount and with the text [str(op.ts)] for
    timestamp; its id is [op.id()], and it is the operation itself when the
    timestamp was a [str] already. *)
Theorem parse_op_from_id_roundtrip (o : op) :
  id_safe o = true ->
  parse_op_from_id (id o) = Ok (with_text_ts o)
  /\ ts_of (with_text_ts o) = PyStr (py_str (ts_of o))
  /\ id (with_text_ts o) = id o
  /\ (forall s, ts_of o = PyStr s -> with_text_ts o = o).
Proof.
  intros H. split; [now apply parse_op_from_id_id|].
  split; [now destruct o|]. split; [apply id_with_text_ts|].
  intros s Hs. destruct o; simpl in Hs; subst; reflexivity.
Qed.

Lemma parse_op_from_id_roundtrip_witness :
  let o := MoveOp (PyInt 4) (lit "A") (lit "B") 15 in
  parse_op_from_id (id o) = Ok (with_text_ts o)
  /\ ts_of (with_text_ts o) = PyStr (py_str (ts_of o))
  /\ id (with_text_ts o) = id o
  /\ (forall s, ts_of o = PyStr s -> with_text_ts o = o).
Proof.
  intros o. apply (parse_op_from_id_roundtrip o). reflexivity.
Defined.

(** C8, as the claim has it, fails on the operations of the script, whose
    timestamp is an [int]: the operation rebuilt from the id has the
    timestamp's text instead. *)
Lemma parse_op_from_id_int_timestamp :
  let o := DepositOp (PyInt 1) (lit "A") 5 in
  id_safe o = true
  /\ id o = lit "dep_1_A_5"
  /\ parse_op_from_id (id o) = Ok (DepositOp (PyStr (lit "1")) (lit "A") 5)
  /\ ~ (exists o', parse_op_from_id (id o) = Ok o' /\ ts_of o' = ts_of o).
Proof.
  intros o. repeat split; try reflexivity.
  intros (o' & Hp & Ht).
  change (parse_op_from_id (id o))
    with (Ok (DepositOp (PyStr (lit "1")) (lit "A") 5)) in Hp.
  injection Hp as <-. discriminate Ht.
Qed.

(** C7: the test [op.id() in line] takes the id [dep_1_A_5] for found in
    the [BEGIN] line of [dep_1_A_55]: on the journal that holds the one
    transaction of the second operation, [already_committed] answers
    [True] for the first, which never ran. *)
Theorem substring_false_positive :
  exists o1 o2 : op,
    id o1 <> id o2
    /\ contains (id o1) (id o2) = true
    /\ eval (already_committed o1) DataStore_init = Ok false
    /\ let fs := exec (handle o2 true) DataStore_init in
       lines_of (store fs)
       = map line [BeginLogLine (id o2); ReadLogLine (lit "A") 0;
                   WriteLogLine (lit "A") 55; CommitLogLine None]
       /\ eval (already_committed o1) fs = Ok true.
Proof.
  exists (DepositOp (PyInt 1) (lit "A") 5), (DepositOp (PyInt 1) (lit "A") 55).
  repeat split; try reflexivity. discriminate.
Qed.

(** ** The rewriting step of recover *)

(** C6, on a journal whose last line is its last [BEGIN]: the rewriting
    step of [recover] writes a second line feed after every line it keeps,
    so the file changes, and it grows again at the next rewriting. *)
Theorem recover_truncate_grows :
  let fs := journal [BeginLogLine (lit "dep_1_A_5"); ReadLogLine (lit "A") 0;
                     WriteLogLine (lit "A") 5; CommitLogLine None;
                     BeginLogLine (lit "dep_2_A_10")] in
  let once := exec recover_truncate fs in
  let twice := exec recover_truncate once in
  last (lines_of (store fs)) [] = line (BeginLogLine (lit "dep_2_A_10"))
  /\ store once
     = concat (map (fun l => line l ++ NEWLINE)
         [BeginLogLine (lit "dep_1_A_5"); ReadLogLine (lit "A") 0;
          WriteLogLine (lit "A") 5; CommitLogLine None;
          BeginLogLine (lit "dep_2_A_10")])
  /\ store once <> store fs
  /\ (List.length (store fs) < List.length (store once) < List.length (store twice))%nat.
Proof.
  repeat split; try reflexivity; try discriminate; vm_compute; lia.
Qed.
(** ** Calling handle twice *)

(** C1, at a withdrawal that the balance does not cover: after a deposit
    of 15 on [A], the first [handle()] of the withdrawal of 100 logs its
    [BEGIN], the [READ] and the error [COMMIT]; the second [handle()] of
    the same operation logs the same three records again, where the claim
    has it log nothing. *)
Theorem handle_twice_logs_failed_withdrawal_twice :
  let o := WithdrawOp (PyInt 3) (lit "A") 100 in
  let fs := exec (handle (DepositOp (PyInt 1) (lit "A") 15) true) DataStore_init in
  let once := exec (handle o true) fs in
  let twice := exec (handle o true) once in
  appended fs once
  = concat (map line [BeginLogLine (lit "wit_3_A_100"); ReadLogLine (lit "A") 15;
                      CommitLogLine (Some (lit "ERROR: insufficient funds: 15 < 100"))])
  /\ appended once twice = appended fs once
  /\ store twice <> store once.
Proof. repeat split; try reflexivity. discriminate. Qed.

(** C2: when a Withdraw or Move has closed its transaction with the error
    [COMMIT], [already_committed] still answers [False] for it, where the
    claim has [True]: the loop compares the whole line with [COMMIT]. The
    next [handle()] of the same operation runs the transaction again. *)
Theorem error_commit_not_seen_as_committed
    (o : op) (fs : files) (src : str) (amt curr : Z) :
  ends_nl (store fs) = true -> wf_op o = true ->
  debited o = Some (src, amt) ->
  eval (already_committed o) fs = Ok false ->
  eval (read src) fs = Ok curr -> curr < amt ->
  let recs := [BeginLogLine (id o); ReadLogLine src curr;
               CommitLogLine (Some (insufficient_funds curr amt))] in
  let fs1 := exec (handle o true) fs in
  fs1 = logged fs recs
  /\ eval (already_committed o) fs1 = Ok false
  /\ handle o true fs1 = (Ok tt, logged fs1 recs).
Proof.
  intros Hs Hwf Hd Hc Hr Hlt recs fs1.
  destruct (handle_insufficient_run o fs src amt curr Hs Hwf Hd Hc Hr Hlt)
    as (Hwfr & Hrecs & Hrun).
  fold recs in Hwfr, Hrecs, Hrun.
  assert (Hfs1 : fs1 = logged fs recs) by (unfold fs1, exec; now rewrite Hrun).
  assert (Hok : eval (handle o true) fs = Ok tt) by (unfold eval; now rewrite Hrun).
  destruct (handle_again o fs Hs Hwf Hok) as [_ Hagain].
  fold fs1 in Hagain. rewrite Hrecs in Hagain.
  assert (Hfail : success_commit fs fs1 = false).
  { rewrite Hfs1, success_commit_logged by exact Hwfr. reflexivity. }
  destruct (Hagain Hc Hfail) as (H1 & H2 & _).
  now repeat split.
Qed.

Lemma error_commit_not_seen_as_committed_witness :
  let o := WithdrawOp (PyInt 3) (lit "A") 100 in
  let fs := exec (handle (DepositOp (PyInt 1) (lit "A") 15) true) DataStore_init in
  let recs := [BeginLogLine (id o); ReadLogLine (lit "A") 15;
               CommitLogLine (Some (insufficient_funds 15 100))] in
  let fs1 := exec (handle o true) fs in
  fs1 = logged fs recs
  /\ eval (already_committed o) fs1 = Ok false
  /\ handle o true fs1 = (Ok tt, logged fs1 recs).
Proof.
  intros o fs.
  apply (error_commit_not_seen_as_committed o fs (lit "A") 100 15);
    [reflexivity|reflexivity|reflexivity|reflexivity|reflexivity|lia].
Defined.
(** The scenario of the specification: 5 and 10 come in on [A], the
    withdrawal of 100 fails, 15 go from [A] to [B], once. *)
Example scenario_committed :
  committed scenario
  = [DepositOp (PyInt 1) (lit "A") 5; DepositOp (PyInt 2) (lit "A") 10;
     MoveOp (PyInt 4) (lit "A") (lit "B") 15]
  /\ total (lit "A") (committed scenario) = 5 + 10 - 15
  /\ total (lit "B") (committed scenario) = 15.
Proof. repeat split. Qed.

(** Without the repeated move no id occurs in an earlier one, and the
    committed operations are those that the running sum covers. *)
Example scenario_fresh :
  fresh [] (firstn 4 scenario) = true
  /\ fresh [] scenario = false
  /\ afforded (firstn 4 scenario) [] = committed scenario.
Proof. repeat split. Qed.

(** An operation whose id occurs in the id of a committed one is taken
    for done and applies nothing. *)
Example committed_substring :
  committed [DepositOp (PyInt 1) (lit "A") 55; DepositOp (PyInt 1) (lit "A") 5]
  = [DepositOp (PyInt 1) (lit "A") 55].
Proof. reflexivity. Qed.

(** C3: the operations of a sequence, run one after the other from the
    empty journal, all end, and [read(a)] is then the sum of the signed
    amounts that the committed ones apply to [a]: deposits and move-ins
    positive, withdrawals and move-outs negative. Which operations commit
    is told from the sequence alone: an operation commits unless it is
    taken for done already or the balance, the sum so far, does not cover
    its amount; when no id occurs in an earlier one, these are the
    operations that the running sum covers. One more operation that the
    balance does not cover leaves [read(a)] as it is; and [read(b)] is 0
    on a journal of records none of which is a [WRITE] for [b]. *)
Theorem balance_is_sum_of_committed
    (ops : list op) (a : str) (o : op) (recs : list logline) (b : str) :
  forallb wf_op ops = true -> wf_op o = true ->
  forallb wf_line recs = true ->
  forallb (fun l => negb (writes_to b l)) recs = true ->
  let fs := exec (run_ops ops) DataStore_init in
  eval (run_ops ops) DataStore_init = Ok tt
  /\ eval (read a) fs = Ok (total a (committed ops))
  /\ (fresh [] ops = true -> committed ops = afforded ops [])
  /\ (covered o fs = false ->
      eval (read a) (exec (handle o true) fs) = eval (read a) fs)
  /\ eval (read b) (journal recs) = Ok 0.
Proof.
  intros Hops Ho Hrecs Hno fs.
  destruct (run_ops_tells ops DataStore_init [] tells_init Hops) as (Hok & Ht).
  fold fs in Ht. split; [exact Hok|]. split; [|split; [|split]].
  - destruct Ht as (_ & Hbal & _). apply Hbal.
  - intros Hfresh. apply (settle_fresh ops [] Hfresh).
  - intros Hfail. pose proof (tells_readable _ _ Ht) as Hfs.
    destruct (handle_step o fs Hfs Ho) as (_ & _ & Hstep).
    destruct Ht as (_ & Hbal & _).
    rewrite (Hstep a _ (Hbal a)), (success_commit_handle o fs Hfs Ho), Hfail.
    now rewrite andb_false_r, Z.add_0_r, Hbal.
  - unfold journal.
    change (mkFiles (concat (map line recs)) None)
      with (logged DataStore_init recs).
    rewrite eval_read, balance_logged by (reflexivity || assumption).
    now rewrite read_scan_records_skip.
Qed.

Lemma balance_is_sum_of_committed_witness :
  let fs := exec (run_ops scenario) DataStore_init in
  let o := WithdrawOp (PyInt 5) (lit "B") 16 in
  eval (run_ops scenario) DataStore_init = Ok tt
  /\ eval (read (lit "B")) fs = Ok (total (lit "B") (committed scenario))
  /\ (fresh [] scenario = true -> committed scenario = afforded scenario [])
  /\ (covered o fs = false ->
      eval (read (lit "B")) (exec (handle o true) fs) = eval (read (lit "B")) fs)
  /\ eval (read (lit "C"))
       (journal [BeginLogLine (lit "dep_1_A_5"); ReadLogLine (lit "C") 7;
                 WriteLogLine (lit "A") 5; CommitLogLine None]) = Ok 0.
Proof.
  intros fs o.
  apply (balance_is_sum_of_committed scenario (lit "B") o
           [BeginLogLine (lit "dep_1_A_5"); ReadLogLine (lit "C") 7;
            WriteLogLine (lit "A") 5; CommitLogLine None] (lit "C"));
    reflexivity.
Defined.

(** What [read] returns after the scenario, and after the withdrawal of
    16 from [B] that its 15 do not cover. *)
Example scenario_balances :
  let fs := exec (run_ops scenario) DataStore_init in
  eval (read (lit "A")) fs = Ok 0
  /\ eval (read (lit "B")) fs = Ok 15
  /\ covered (WithdrawOp (PyInt 5) (lit "B") 16) fs = false
  /\ eval (read (lit "B"))
       (exec (handle (WithdrawOp (PyInt 5) (lit "B") 16) true) fs) = Ok 15.
Proof. repeat split; vm_compute; reflexivity. Qed.
(** C5: let the journal be cut at any point after the [BEGIN] of a
    transaction and before its [COMMIT], between two records. Then
    [recover] ends; [read] returns for every account what it returns when
    [handle()] runs to its end without the cut; the files are those that
    [recover] leaves when the cut is right after the [BEGIN]; and the
    journal is then the lines up to the [BEGIN], rewritten, followed by the
    whole of the transaction's records: nothing of the cut run is left. *)
Theorem recovery_converges (o : op) (fs0 : files) (k : nat) :
  ends_nl (store fs0) = true -> wf_op o = true -> id_safe o = true ->
  eval (handle o true) fs0 = Ok tt ->
  let full := exec (handle o true) fs0 in
  let tail := lines_of (appended fs0 full) in
  let cut_at n := mkFiles (store fs0 ++ concat (firstn n tail)) (backup fs0) in
  (1 <= k < List.length tail)%nat ->
  eval recover (cut_at k) = Ok tt
  /\ (forall a, eval (read a) (exec recover (cut_at k)) = eval (read a) full)
  /\ exec recover (cut_at k) = exec recover (cut_at 1%nat)
  /\ lines_of (store (exec recover (cut_at k)))
     = spaced (lines_of (store fs0) ++ firstn 1 tail) ++ skipn 1 tail.
Proof.
  intros Hs Hwf Hsafe Hok full tail cut_at Hk.
  set (rd := balance (lines_of (store fs0))) in *.
  set (body := fst (body_records o rd)).
  assert (Hbody : forallb wf_line body = true) by now apply body_records_wf.
  assert (Hnb : forallb (fun l => negb (is_begin l)) body = true)
    by apply body_records_no_begin.
  pose proof (wf_op_id_line o Hwf) as Hb.
  assert (Hall : forallb wf_line (BeginLogLine (id o) :: body) = true).
  { cbn [forallb]. now rewrite Hb. }
  (* the run without the cut *)
  assert (Hrun : committed_scan (id o) false (lines_of (store fs0)) = false
                 /\ snd (body_records o rd) = Ok tt
                 /\ full = logged fs0 (BeginLogLine (id o) :: body)).
  { pose proof (handle_run o true fs0 Hs Hwf) as Hrun.
    subst tail full. unfold eval in Hok. unfold exec in *.
    destruct (committed_scan (id o) false (lines_of (store fs0))).
    - exfalso. rewrite Hrun in Hk. cbn [snd] in Hk.
      unfold appended in Hk. rewrite skipn_all in Hk. simpl in Hk. lia.
    - cbv zeta in Hrun. rewrite Hrun in *. cbn [fst snd] in *.
      now repeat split. }
  destruct Hrun as (Hc & Hbok & Hfull).
  assert (Htail : tail = map line (BeginLogLine (id o) :: body)).
  { subst tail. rewrite Hfull. now apply lines_of_appended. }
  clearbody tail full. subst tail full.
  assert (Hcut : forall n, (1 <= n)%nat ->
             cut_at n = logged fs0 (BeginLogLine (id o) :: firstn (n - 1) body)).
  { intros n Hn. unfold cut_at, logged. f_equal. f_equal.
    rewrite firstn_map. f_equal.
    destruct n as [|n]; [lia|].
    replace (S n - 1)%nat with n by lia. reflexivity. }
  assert (Hrec : forall n, (1 <= n)%nat ->
             recover (cut_at n)
             = (Ok tt,
                logged (mkFiles (rewritten (lines_of (store fs0)
                                   ++ [line (BeginLogLine (id o))])) None) body)).
  { intros n Hn. rewrite (Hcut n Hn).
    rewrite recover_cut; try assumption.
    - fold rd. fold body. now rewrite Hbok.
    - now apply forallb_firstn.
    - now apply forallb_firstn. }
  assert (Hkept : Forall whole (lines_of (store fs0) ++ [line (BeginLogLine (id o))])).
  { apply Forall_app. split; [now apply lines_of_whole|].
    constructor; [now apply line_whole|constructor]. }
  unfold eval, exec.
  rewrite (Hrec k) by lia. rewrite (Hrec 1%nat) by lia. cbn [fst snd].
  split; [reflexivity|]. split; [|split; [reflexivity|]].
  - intros a. change (fst (read a ?x)) with (eval (read a) x).
    rewrite !eval_read.
    rewrite balance_logged; [|now apply ends_nl_rewritten|exact Hbody].
    rewrite balance_logged by assumption.
    cbn [store]. rewrite lines_of_rewritten by exact Hkept.
    cbn [map rev]. rewrite <- app_assoc. cbn [app].
    apply read_scan_app_congr. rewrite read_scan_spaced.
    now rewrite rev_unit.
  - rewrite lines_of_logged; [|now apply ends_nl_rewritten|exact Hbody].
    cbn [store]. rewrite lines_of_rewritten by exact Hkept.
    reflexivity.
Qed.

Lemma recovery_converges_witness :
  let fs0 := exec (handle (DepositOp (PyInt 1) (lit "A") 15) true) DataStore_init in
  let o := MoveOp (PyInt 4) (lit "A") (lit "B") 15 in
  let full := exec (handle o true) fs0 in
  let tail := lines_of (appended fs0 full) in
  let cut_at n := mkFiles (store fs0 ++ concat (firstn n tail)) (backup fs0) in
  eval recover (cut_at 3%nat) = Ok tt
  /\ (forall a, eval (read a) (exec recover (cut_at 3%nat)) = eval (read a) full)
  /\ exec recover (cut_at 3%nat) = exec recover (cut_at 1%nat)
  /\ lines_of (store (exec recover (cut_at 3%nat)))
     = spaced (lines_of (store fs0) ++ firstn 1 tail) ++ skipn 1 tail.
Proof.
  intros fs0 o.
  apply (recovery_converges o fs0 3);
    [reflexivity|reflexivity|reflexivity|reflexivity|vm_compute; lia].
Defined.

(** C5, as the claim has it, fails for an account that holds the
    separator of the ids: a deposit on [my_acct] runs as any other, but
    when its journal is cut after the [READ], [recover] splits the id into
    one part too many and the constructor raises [TypeError]; the journal
    stays cut after the [BEGIN] and [read] returns 0, not the 5 of the run
    without the cut. *)
Lemma recovery_raises_on_separator_in_account :
  let o := DepositOp (PyInt 1) (lit "my_acct") 5 in
  let full := exec (handle o true) DataStore_init in
  let tail := lines_of (appended DataStore_init full) in
  let cut := mkFiles (concat (firstn 2 tail)) None in
  wf_op o = true
  /\ eval (handle o true) DataStore_init = Ok tt
  /\ tail = map line [BeginLogLine (lit "dep_1_my_acct_5");
                      ReadLogLine (lit "my_acct") 0;
                      WriteLogLine (lit "my_acct") 5; CommitLogLine None]
  /\ eval recover cut = Raise TypeError
  /\ eval (read (lit "my_acct")) (exec recover cut) = Ok 0
  /\ eval (read (lit "my_acct")) full = Ok 5.
Proof. repeat split; reflexivity. Qed.

(** * Further properties of the code *)

(** ** The journal only grows *)

Lemma extends_refl (fs : files) : extends fs fs.
Proof. exists []. destruct fs. simpl. now rewrite app_nil_r. Qed.

Lemma extends_trans (a b c : files) : extends a b -> extends b c -> extends a c.
Proof.
  intros [x ->] [y ->]. exists (x ++ y). simpl. now rewrite app_assoc.
Qed.

Lemma extends_bind {A B} (m : M A) (k : A -> M B) :
  (forall fs, extends fs (exec m fs)) ->
  (forall a fs, extends fs (exec (k a) fs)) ->
  forall fs, extends fs (exec (bind m k) fs).
Proof.
  intros Hm Hk fs. specialize (Hm fs). unfold exec, bind in *.
  destruct (m fs) as [[a|e] fs']; cbn [snd] in *.
  - apply (extends_trans _ fs'); [exact Hm|apply Hk].
  - exact Hm.
Qed.

Lemma extends_log (l : logline) (fs : files) : extends fs (exec (log l) fs).
Proof. now exists (line l). Qed.

Lemma extends_read (a : str) (fs : files) : extends fs (exec (read a) fs).
Proof. apply extends_refl. Qed.

Lemma extends_already_committed (o : op) (fs : files) :
  extends fs (exec (already_committed o) fs).
Proof. apply extends_refl. Qed.

Lemma extends_ret {A} (a : A) (fs : files) : extends fs (exec (ret a) fs).
Proof. apply extends_refl. Qed.

Ltac extends_all :=
  cbv beta;
  lazymatch goal with
  | |- forall fs, extends fs (exec (bind _ _) fs) =>
      apply extends_bind; [extends_all | intros ?; extends_all]
  | |- forall fs, extends fs (exec (if ?b then _ else _) fs) =>
      destruct b; extends_all
  | |- forall fs, extends fs (exec (log _) fs) => intros; apply extends_log
  | |- forall fs, extends fs (exec (read _) fs) => intros; apply extends_read
  | |- forall fs, extends fs (exec (already_committed _) fs) =>
      intros; apply extends_already_committed
  | |- forall fs, extends fs (exec (ret _) fs) => intros; apply extends_ret
  end.

Lemma extends_handle (o : op) (write_begin : bool) (fs : files) :
  extends fs (exec (handle o write_begin) fs).
Proof.
  revert fs.
  destruct o as [ts src dst amt|ts dst amt|ts dst amt]; cbn [handle];
    unfold MoveOp_handle, WithdrawOp_handle, DepositOp_handle; cbv zeta;
    extends_all.
Qed.

(** X1: whatever the operation, the flag and the journal, and whether it
    returns or raises, [handle] leaves a journal that starts with the
    journal it found, and leaves the backup file alone; so does the loop
    of the script over any list of operations. *)
Theorem handle_only_appends (o : op) (write_begin : bool) (ops : list op)
    (fs : files) :
  extends fs (exec (handle o write_begin) fs)
  /\ extends fs (exec (run_ops ops) fs).
Proof.
  split; [apply extends_handle|].
  revert fs. induction ops as [|o' rest IH]; intros fs.
  - apply extends_refl.
  - cbn [run_ops]. revert fs. apply extends_bind.
    + intros fs. apply extends_handle.
    + intros _ fs. apply IH.
Qed.
(** ** Records, lines and read *)

(** X2: on a journal of whole lines, logging a record with well-formed
    fields adds exactly its line after the lines [readlines] returned
    before, and the journal is again one of whole lines. *)
Theorem log_appends_one_line (l : logline) (fs : files) :
  ends_nl (store fs) = true -> wf_line l = true ->
  lines_of (store (exec (log l) fs)) = lines_of (store fs) ++ [line l]
  /\ ends_nl (store (exec (log l) fs)) = true.
Proof.
  intros Hs Hl. unfold exec. rewrite log_run. cbn [snd].
  assert (H : forallb wf_line [l] = true) by (cbn [forallb]; now rewrite Hl).
  split; [now rewrite lines_of_logged|now apply ends_nl_logged].
Qed.

Lemma log_appends_one_line_witness :
  let fs := journal [BeginLogLine (lit "dep_1_A_5"); ReadLogLine (lit "A") 0] in
  let l := WriteLogLine (lit "A") 5 in
  lines_of (store (exec (log l) fs)) = lines_of (store fs) ++ [line l]
  /\ ends_nl (store (exec (log l) fs)) = true.
Proof.
  intros fs l. apply (log_appends_one_line l fs); reflexivity.
Defined.

(** X3: what [read] returns after a record was logged: the amount of the
    record for its own account when the record is a [WRITE], and what
    [read] returned before in every other case. *)
Theorem read_after_log (l : logline) (a : str) (fs : files) :
  ends_nl (store fs) = true -> wf_line l = true ->
  eval (read a) (exec (log l) fs)
  = match l with
    | WriteLogLine dst n => if str_eqb dst a then Ok n else eval (read a) fs
    | _ => eval (read a) fs
    end.
Proof.
  intros Hs Hl. unfold exec. rewrite log_run. cbn [snd].
  rewrite !eval_read, balance_logged;
    [|exact Hs|cbn [forallb]; now rewrite Hl].
  cbn [map rev app]. unfold balance.
  destruct l as [oid|dst n|dst n|e].
  - apply read_scan_begin.
  - now apply read_scan_write.
  - apply read_scan_read.
  - apply read_scan_commit.
Qed.

Lemma read_after_log_witness :
  let fs := journal [WriteLogLine (lit "A") 5; WriteLogLine (lit "B") 7] in
  eval (read (lit "A")) (exec (log (WriteLogLine (lit "A") 9)) fs) = Ok 9
  /\ eval (read (lit "B")) (exec (log (WriteLogLine (lit "A") 9)) fs) = Ok 7.
Proof.
  intros fs. split.
  - apply (read_after_log (WriteLogLine (lit "A") 9) (lit "A") fs); reflexivity.
  - apply (read_after_log (WriteLogLine (lit "A") 9) (lit "B") fs); reflexivity.
Defined.

Lemma str_of_int_inj (n m : Z) : str_of_int n = str_of_int m -> n = m.
Proof.
  intros H. apply (f_equal int_of_str) in H.
  rewrite !int_of_str_of_int in H. now injection H.
Qed.

Lemma line_fields_inj (k d1 d2 : str) (n1 n2 : Z) :
  is_token k = true -> is_token d1 = true -> is_token d2 = true ->
  k ++ lit " " ++ d1 ++ lit " " ++ str_of_int n1 ++ NEWLINE
  = k ++ lit " " ++ d2 ++ lit " " ++ str_of_int n2 ++ NEWLINE ->
  d1 = d2 /\ n1 = n2.
Proof.
  intros Hk H1 H2 H. apply (f_equal split) in H.
  rewrite !split_three in H by auto using str_of_int_token.
  injection H as -> Hn. split; [reflexivity|now apply str_of_int_inj].
Qed.

(** X4: the four [line()] methods never write two different records with
    well-formed fields as the same line. *)
Theorem line_injective (l1 l2 : logline) :
  wf_line l1 = true -> wf_line l2 = true -> line l1 = line l2 -> l1 = l2.
Proof.
  intros H1 H2 H.
  destruct l1 as [o1|d1 n1|d1 n1|e1], l2 as [o2|d2 n2|d2 n2|e2];
    try discriminate H.
  - unfold line in H. apply app_inv_head in H. apply app_inv_head in H.
    apply app_inv_tail in H. now subst.
  - apply line_fields_inj in H as [-> ->]; auto.
  - apply line_fields_inj in H as [-> ->]; auto.
  - unfold line in H. apply app_inv_head in H.
    destruct e1 as [e1|], e2 as [e2|].
    + apply app_inv_tail in H. apply app_inv_head in H. now subst.
    + apply app_inv_tail in H. discriminate H.
    + apply app_inv_tail in H. discriminate H.
    + reflexivity.
Qed.

Lemma line_injective_witness :
  WriteLogLine (lit "A") 5 = WriteLogLine (lit "A") (2 + 3).
Proof.
  apply (line_injective (WriteLogLine (lit "A") 5) (WriteLogLine (lit "A") (2 + 3)));
    reflexivity.
Defined.
(** ** What handle leaves in the journal *)

(** X5: on a readable journal, [handle()] of an operation with well-formed
    fields ends, and it adds to the journal either nothing or one whole
    transaction: the [BEGIN] with the id of the operation, then reads and
    writes only, then one [COMMIT], with or without a message. *)
Theorem handle_logs_whole_transaction (o : op) (fs : files) :
  readable fs -> wf_op o = true ->
  let added := lines_of (appended fs (exec (handle o true) fs)) in
  eval (handle o true) fs = Ok tt
  /\ (added = []
      \/ exists mid c,
           added = line (BeginLogLine (id o)) :: map line mid
                   ++ [line (CommitLogLine c)]
           /\ forallb data_line mid = true).
Proof.
  intros Hfs Hwf added. destruct (handle_step o fs Hfs Hwf) as (Hok & _ & _).
  split; [exact Hok|]. destruct Hfs as [Hs _].
  subst added. revert Hok. unfold eval, exec.
  rewrite (handle_run o true fs Hs Hwf).
  destruct (committed_scan (id o) false (lines_of (store fs))).
  - intros _. left. cbn [snd]. unfold appended. now rewrite skipn_all.
  - cbv zeta. cbn [fst snd]. intros Hok. right.
    rewrite lines_of_appended by now apply handle_records_wf.
    unfold handle_records, begin_records. cbn [app map].
    destruct (body_records_shape o _ Hok)
      as [(src & amt & curr & _ & _ & _ & ->) | (mid & -> & Hmid & _)].
    + exists [ReadLogLine src curr], (Some (insufficient_funds curr amt)).
      split; reflexivity.
    + exists mid, None. split; [now rewrite map_app|exact Hmid].
Qed.

Lemma handle_logs_whole_transaction_witness :
  let o := DepositOp (PyInt 1) (lit "A") 5 in
  let added := lines_of (appended DataStore_init (exec (handle o true) DataStore_init)) in
  eval (handle o true) DataStore_init = Ok tt
  /\ (added = []
      \/ exists mid c,
           added = line (BeginLogLine (id o)) :: map line mid
                   ++ [line (CommitLogLine c)]
           /\ forallb data_line mid = true).
Proof.
  intros o.
  apply (handle_logs_whole_transaction o DataStore_init); [|reflexivity].
  split; [reflexivity|]. intros a. exists 0. reflexivity.
Defined.

(** X6: on a readable journal, when the operation is a deposit or the
    balance covers its amount, the journal after [handle()] has the
    operation committed, and a second [handle()] changes nothing. *)
Theorem handle_twice_when_covered (o : op) (fs : files) :
  readable fs -> wf_op o = true -> covered o fs = true ->
  let fs1 := exec (handle o true) fs in
  eval (already_committed o) fs1 = Ok true
  /\ handle o true fs1 = (Ok tt, fs1).
Proof.
  intros Hfs Hwf Hcov fs1.
  destruct (handle_step o fs Hfs Hwf) as (Hok & [Hs1 _] & _). fold fs1 in Hs1.
  pose proof (success_commit_handle o fs Hfs Hwf) as Hsucc.
  fold fs1 in Hsucc. rewrite Hcov, andb_true_r in Hsucc.
  destruct Hfs as [Hs _].
  destruct (handle_again o fs Hs Hwf Hok) as [Hagain _]. fold fs1 in Hagain.
  assert (Hc1 : eval (already_committed o) fs1 = Ok true).
  { unfold eval. rewrite already_committed_run. cbn [fst]. f_equal.
    destruct (committed_scan (id o) false (lines_of (store fs))) eqn:Hc.
    - subst fs1. unfold exec. rewrite handle_run, Hc by assumption. exact Hc.
    - assert (Hrun : handle o true fs1 = (Ok tt, fs1)).
      { apply Hagain. right. exact Hsucc. }
      rewrite handle_run in Hrun by assumption.
      destruct (committed_scan (id o) false (lines_of (store fs1))) eqn:Hc1;
        [reflexivity|].
      exfalso. cbv zeta in Hrun. injection Hrun as _ Hrun.
      apply (f_equal (fun f => List.length (store f))) in Hrun.
      unfold logged, handle_records, begin_records in Hrun. cbn [store] in Hrun.
      rewrite length_app in Hrun. cbn [app map concat] in Hrun.
      rewrite length_app in Hrun. unfold line in Hrun at 1.
      rewrite !length_app in Hrun. simpl in Hrun. lia. }
  split; [exact Hc1|].
  apply eval_already_committed in Hc1.
  now rewrite handle_run, Hc1.
Qed.

Lemma handle_twice_when_covered_witness :
  let o := DepositOp (PyInt 1) (lit "A") 5 in
  let fs1 := exec (handle o true) DataStore_init in
  eval (already_committed o) fs1 = Ok true
  /\ handle o true fs1 = (Ok tt, fs1).
Proof.
  intros o.
  apply (handle_twice_when_covered o DataStore_init); [|reflexivity|reflexivity].
  split; [reflexivity|]. intros a. exists 0. reflexivity.
Defined.
(** ** already_committed *)

Lemma committed_scan_found (oid : str) (ls : list str) :
  committed_scan oid true ls = existsb is_commit_line ls.
Proof.
  induction ls as [|l ls IH]; [reflexivity|].
  rewrite committed_scan_cons. cbn [existsb]. unfold is_commit_line at 1.
  destruct (contains oid (strip l)); cbn [andb];
    destruct (str_eqb (strip l) COMMIT); cbn [orb]; auto.
Qed.

Lemma committed_scan_hit (oid : str) (found : bool) (l : str) (rest : list str) :
  contains oid (strip l) = true ->
  committed_scan oid found (l :: rest) = existsb is_commit_line (l :: rest).
Proof.
  intros H. rewrite committed_scan_cons, H. cbn [existsb andb].
  unfold is_commit_line at 1.
  destruct (str_eqb (strip l) COMMIT); [reflexivity|].
  apply committed_scan_found.
Qed.

Lemma committed_scan_miss (oid : str) (l : str) (rest : list str) :
  contains oid (strip l) = false ->
  committed_scan oid false (l :: rest) = committed_scan oid false rest.
Proof. intros H. now rewrite committed_scan_cons, H. Qed.

(** X7: [already_committed] answers [True] exactly when some line of the
    journal, stripped, holds the id of the operation as a part of its
    text, and that line or a later one is, stripped, the bare [COMMIT]. *)
Theorem already_committed_iff (o : op) (fs : files) :
  eval (already_committed o) fs = Ok true
  <-> exists pre l post,
        lines_of (store fs) = pre ++ l :: post
        /\ contains (id o) (strip l) = true
        /\ existsb is_commit_line (l :: post) = true.
Proof.
  unfold eval. rewrite already_committed_run. cbn [fst].
  generalize (lines_of (store fs)) as ls. generalize (id o) as oid.
  intros oid ls. split.
  - intros H. injection H as H.
    induction ls as [|l ls IH]; [discriminate|].
    destruct (contains oid (strip l)) eqn:E.
    + exists [], l, ls. rewrite (committed_scan_hit _ _ _ _ E) in H. auto.
    + rewrite (committed_scan_miss _ _ _ E) in H.
      destruct (IH H) as (pre & x & post & -> & Hx & Hc).
      now exists (l :: pre), x, post.
  - intros (pre & l & post & -> & Hl & Hc). f_equal.
    rewrite committed_scan_app, (committed_scan_hit _ _ _ _ Hl), Hc.
    apply orb_true_r.
Qed.

(** X8: on a journal of whole lines, an operation that
    [already_committed] has found committed stays committed whatever text
    is added to the journal afterwards, so that its [handle] keeps doing
    nothing. *)
Theorem already_committed_stays (o : op) (fs : files) (x : str)
    (bk : option str) (write_begin : bool) :
  ends_nl (store fs) = true ->
  eval (already_committed o) fs = Ok true ->
  let fs' := mkFiles (store fs ++ x) bk in
  eval (already_committed o) fs' = Ok true
  /\ handle o write_begin fs' = (Ok tt, fs').
Proof.
  intros Hs Hc fs'. apply eval_already_committed in Hc.
  assert (Hc' : committed_scan (id o) false (lines_of (store fs')) = true).
  { subst fs'. cbn [store]. rewrite lines_of_app by exact Hs.
    now rewrite committed_scan_app, Hc. }
  split.
  - unfold eval. rewrite already_committed_run. cbn [fst]. now rewrite Hc'.
  - destruct o; cbn [handle];
      unfold MoveOp_handle, WithdrawOp_handle, DepositOp_handle; cbv zeta;
      rewrite guard_run, Hc'; reflexivity.
Qed.

Lemma already_committed_stays_witness :
  let o := DepositOp (PyInt 1) (lit "A") 5 in
  let fs := exec (handle o true) DataStore_init in
  let fs' := mkFiles (store fs ++ lit "BEGIN dep_2_A_7") None in
  eval (already_committed o) fs' = Ok true
  /\ handle o true fs' = (Ok tt, fs').
Proof.
  intros o fs.
  apply (already_committed_stays o fs (lit "BEGIN dep_2_A_7") None true);
    reflexivity.
Defined.
(** ** Balances *)

(** X9: a move never creates or destroys money: on a readable journal,
    whether it commits, fails or is stopped by the guard, the balances of
    its two accounts add up after [handle()] to what they added up to
    before. *)
Theorem move_conserves_total (ts : pyval) (src dst : str) (amt s d : Z)
    (fs : files) :
  readable fs -> wf_op (MoveOp ts src dst amt) = true ->
  eval (read src) fs = Ok s -> eval (read dst) fs = Ok d ->
  let fs' := exec (handle (MoveOp ts src dst amt) true) fs in
  exists s' d',
    eval (read src) fs' = Ok s' /\ eval (read dst) fs' = Ok d'
    /\ s' + d' = s + d.
Proof.
  intros Hfs Hwf Hsrc Hdst fs'.
  destruct (handle_step _ fs Hfs Hwf) as (_ & _ & Hbal). fold fs' in Hbal.
  pose proof (Hbal src s Hsrc) as Hs'. pose proof (Hbal dst d Hdst) as Hd'.
  eexists. eexists. split; [exact Hs'|]. split; [exact Hd'|].
  destruct (success_commit fs fs'); [|lia].
  cbn [delta]. rewrite !str_eqb_refl.
  rewrite (str_eqb_sym dst src).
  destruct (str_eqb src dst); lia.
Qed.

Lemma move_conserves_total_witness :
  let fs := journal [WriteLogLine (lit "A") 15; WriteLogLine (lit "B") 2] in
  let fs' := exec (handle (MoveOp (PyInt 4) (lit "A") (lit "B") 10) true) fs in
  exists s' d',
    eval (read (lit "A")) fs' = Ok s' /\ eval (read (lit "B")) fs' = Ok d'
    /\ s' + d' = 15 + 2.
Proof.
  intros fs.
  apply (move_conserves_total (PyInt 4) (lit "A") (lit "B") 10 15 2 fs);
    try reflexivity.
  split; [reflexivity|]. intros a.
  unfold fs, journal. rewrite eval_read.
  change (mkFiles (concat (map line [WriteLogLine (lit "A") 15; WriteLogLine (lit "B") 2])) None)
    with (logged DataStore_init [WriteLogLine (lit "A") 15; WriteLogLine (lit "B") 2]).
  rewrite balance_logged by reflexivity. cbn [map rev app].
  rewrite !read_scan_write by reflexivity.
  destruct (str_eqb (lit "B") a); [now eexists|].
  destruct (str_eqb (lit "A") a); now eexists.
Defined.

(** X10: no operation takes from an account more than [read] finds on
    it: on a readable journal, after [handle()] of a withdrawal or a move,
    the balance of the account it takes from is either what it was, or it
    is less by the amount and the amount was covered, so that what is left
    is not negative. *)
Theorem handle_never_overdraws (o : op) (src : str) (amt z : Z) (fs : files) :
  readable fs -> wf_op o = true -> debited o = Some (src, amt) ->
  eval (read src) fs = Ok z ->
  let fs' := exec (handle o true) fs in
  eval (read src) fs' = Ok z
  \/ (eval (read src) fs' = Ok (z - amt) /\ amt <= z).
Proof.
  intros Hfs Hwf Hd Hz fs'.
  destruct (handle_step o fs Hfs Hwf) as (_ & _ & Hbal). fold fs' in Hbal.
  pose proof (success_commit_handle o fs Hfs Hwf) as Hsucc. fold fs' in Hsucc.
  rewrite (Hbal src z Hz).
  destruct (success_commit fs fs'); [|left; now rewrite Z.add_0_r].
  symmetry in Hsucc. apply andb_true_iff in Hsucc as [_ Hcov].
  unfold covered in Hcov. rewrite Hd, Hz in Hcov.
  apply negb_true_iff, Z.ltb_ge in Hcov.
  destruct o as [ts s d m|ts d m|ts d m]; cbn [debited] in Hd;
    inversion Hd; subst; cbn [delta]; rewrite str_eqb_refl.
  - destruct (str_eqb d src).
    + left. f_equal. lia.
    + right. split; [f_equal; lia|exact Hcov].
  - right. split; [reflexivity|exact Hcov].
Qed.

Lemma handle_never_overdraws_witness :
  let o := WithdrawOp (PyInt 3) (lit "A") 100 in
  let fs' := exec (handle o true) DataStore_init in
  eval (read (lit "A")) fs' = Ok 0
  \/ (eval (read (lit "A")) fs' = Ok (0 - 100) /\ 100 <= 0).
Proof.
  intros o.
  apply (handle_never_overdraws o (lit "A") 100 0 DataStore_init);
    try reflexivity.
  split; [reflexivity|]. intros a. exists 0. reflexivity.
Defined.

Lemma handle_step_nonneg (o : op) (fs : files) :
  readable fs -> wf_op o = true -> 0 <= amt_of o ->
  (forall a z, eval (read a) fs = Ok z -> 0 <= z) ->
  forall a z, eval (read a) (exec (handle o true) fs) = Ok z -> 0 <= z.
Proof.
  intros Hfs Hwf Hamt Hpos a z'.
  destruct (handle_step o fs Hfs Hwf) as (_ & _ & Hbal).
  pose proof (success_commit_handle o fs Hfs Hwf) as Hsucc.
  destruct (proj2 Hfs a) as [z Hz]. rewrite (Hbal a z Hz).
  pose proof (Hpos a z Hz) as Hz0. intros [= <-].
  destruct (success_commit fs (exec (handle o true) fs)); [|lia].
  symmetry in Hsucc. apply andb_true_iff in Hsucc as [_ Hcov].
  unfold covered in Hcov.
  destruct o as [ts s d m|ts d m|ts d m]; cbn [debited amt_of delta] in *.
  - destruct (eval (read s) fs) as [c|e] eqn:Hc; [|discriminate].
    apply negb_true_iff, Z.ltb_ge in Hcov.
    destruct (str_eqb s a) eqn:Esa.
    + apply str_eqb_eq in Esa. subst a. rewrite Hz in Hc. injection Hc as <-.
      destruct (str_eqb d s); lia.
    + destruct (str_eqb d a); lia.
  - destruct (eval (read d) fs) as [c|e] eqn:Hc; [|discriminate].
    apply negb_true_iff, Z.ltb_ge in Hcov.
    destruct (str_eqb d a) eqn:Eda; [|lia].
    apply str_eqb_eq in Eda. subst a. rewrite Hz in Hc. injection Hc as <-. lia.
  - destruct (str_eqb d a); lia.
Qed.

(** X11: when no operation of a sequence has a negative amount, the
    sequence run from the empty journal leaves no account with a negative
    balance. *)
Theorem balances_never_negative (ops : list op) (a : str) :
  forallb wf_op ops = true ->
  forallb (fun o => 0 <=? amt_of o) ops = true ->
  exists z, eval (read a) (exec (run_ops ops) DataStore_init) = Ok z /\ 0 <= z.
Proof.
  intros Hwf Hamt.
  assert (H : forall fs,
             readable fs -> (forall b z, eval (read b) fs = Ok z -> 0 <= z) ->
             readable (exec (run_ops ops) fs)
             /\ forall b z, eval (read b) (exec (run_ops ops) fs) = Ok z -> 0 <= z).
  { induction ops as [|o rest IH]; intros fs Hfs Hpos; [now split|].
    cbn [forallb] in Hwf, Hamt.
    apply andb_true_iff in Hwf as [Ho Hrest].
    apply andb_true_iff in Hamt as [Hao Harest]. apply Z.leb_le in Hao.
    destruct (handle_step o fs Hfs Ho) as (Hok & Hfs' & _).
    unfold exec at 1 2. rewrite (run_ops_cons o rest fs Hok).
    apply (IH Hrest Harest); [exact Hfs'|].
    now apply handle_step_nonneg. }
  destruct (H DataStore_init readable_init) as [[_ Hread] Hpos].
  { intros b z [= <-]. lia. }
  destruct (Hread a) as [z Hz]. exists z. split; [exact Hz|].
  now apply (Hpos a).
Qed.

Lemma balances_never_negative_witness :
  exists z, eval (read (lit "A")) (exec (run_ops scenario) DataStore_init) = Ok z
            /\ 0 <= z.
Proof.
  apply (balances_never_negative scenario (lit "A")); reflexivity.
Defined.

(** X12: when the guard lets the operation pass, [handle()] is the logging
    of the [BEGIN] followed by [handle(write_begin=False)]: what [recover]
    relies on when it keeps the [BEGIN] and replays the rest. *)
Theorem handle_is_begin_then_replay (o : op) (fs : files) :
  ends_nl (store fs) = true -> wf_op o = true ->
  eval (already_committed o) fs = Ok false ->
  handle o true fs = handle o false (exec (log (BeginLogLine (id o))) fs).
Proof.
  intros Hs Hwf Hc. apply eval_already_committed in Hc.
  pose proof (wf_op_id_line o Hwf) as Hb.
  assert (Hpre : forallb wf_line [BeginLogLine (id o)] = true)
    by (cbn [forallb]; now rewrite Hb).
  unfold exec. rewrite log_run. cbn [snd].
  rewrite (handle_run o true fs Hs Hwf), Hc.
  rewrite (handle_run o false _ (ends_nl_logged _ _ Hs Hpre) Hwf).
  rewrite lines_of_logged by assumption. cbn [map].
  rewrite committed_scan_app, Hc. cbn [orb].
  rewrite committed_scan_own_begin by now apply id_token.
  cbn [committed_scan]. cbv zeta.
  assert (Hext : body_records o (balance (lines_of (store fs) ++ [line (BeginLogLine (id o))]))
                 = body_records o (balance (lines_of (store fs)))).
  { apply body_records_ext. intros a. unfold balance.
    rewrite rev_unit. apply read_scan_begin. }
  unfold handle_records, begin_records. rewrite Hext, logged_app. reflexivity.
Qed.

Lemma handle_is_begin_then_replay_witness :
  let o := DepositOp (PyInt 1) (lit "A") 5 in
  handle o true DataStore_init
  = handle o false (exec (log (BeginLogLine (id o))) DataStore_init).
Proof.
  intros o. apply (handle_is_begin_then_replay o DataStore_init); reflexivity.
Defined.
(** ** Ids and parse_op_from_id *)

Lemma split_on_length (s : str) :
  List.length (split_on ID_SEPARATOR s)
  = S (List.length (filter (fun c => Ascii.eqb c ID_SEPARATOR) s)).
Proof.
  induction s as [|c s IH]; [reflexivity|].
  cbn [split_on filter]. destruct (Ascii.eqb c ID_SEPARATOR).
  - cbn [List.length]. now rewrite IH.
  - destruct (split_on ID_SEPARATOR s); [discriminate IH|exact IH].
Qed.

Lemma no_sep_filter (s : str) :
  no_sep s = true <-> filter (fun c => Ascii.eqb c ID_SEPARATOR) s = [].
Proof.
  unfold no_sep. induction s as [|c s IH]; [easy|].
  cbn [forallb filter]. destruct (Ascii.eqb c ID_SEPARATOR); cbn [negb andb].
  - split; discriminate.
  - exact IH.
Qed.

Lemma filter_join_length (p : str) (rest : list str) :
  List.length (filter (fun c => Ascii.eqb c ID_SEPARATOR)
                 (join ID_SEPARATOR (p :: rest)))
  = (List.length (filter (fun c => Ascii.eqb c ID_SEPARATOR) p)
     + match rest with
       | [] => 0
       | _ => S (List.length (filter (fun c => Ascii.eqb c ID_SEPARATOR)
                               (join ID_SEPARATOR rest)))
       end)%nat.
Proof.
  destruct rest as [|q rest]; [cbn [join]; lia|].
  change (join ID_SEPARATOR (p :: q :: rest))
    with (p ++ ID_SEPARATOR :: join ID_SEPARATOR (q :: rest)).
  rewrite filter_app, length_app. reflexivity.
Qed.

Lemma no_sep_false_length (s : str) :
  no_sep s = false ->
  (0 < List.length (filter (fun c => Ascii.eqb c ID_SEPARATOR) s))%nat.
Proof.
  intros H. destruct (filter (fun c => Ascii.eqb c ID_SEPARATOR) s) eqn:E.
  - apply no_sep_filter in E. congruence.
  - simpl. lia.
Qed.

Lemma str_of_int_filter (n : Z) :
  filter (fun c => Ascii.eqb c ID_SEPARATOR) (str_of_int n) = [].
Proof. apply no_sep_filter, str_of_int_no_sep. Qed.

(** X13: [parse_op_from_id] gives back the operation of an id exactly
    when the timestamp and the accounts are free of [ID_SEPARATOR];
    otherwise the id splits into too many parts and the constructor raises
    [TypeError]. *)
Theorem parse_op_from_id_of_id (o : op) :
  parse_op_from_id (id o)
  = if id_safe o then Ok (with_text_ts o) else Raise TypeError.
Proof.
  destruct (id_safe o) eqn:Hsafe; [now apply parse_op_from_id_id|].
  unfold parse_op_from_id.
  assert (Hlen : forall k p,
             List.length (tl (split_on ID_SEPARATOR (join ID_SEPARATOR (k :: p))))
             = List.length (filter (fun c => Ascii.eqb c ID_SEPARATOR)
                              (join ID_SEPARATOR (k :: p)))).
  { intros k p. pose proof (split_on_length (join ID_SEPARATOR (k :: p))) as H.
    destruct (split_on ID_SEPARATOR (join ID_SEPARATOR (k :: p)));
      [discriminate H|]. cbn [tl]. cbn [List.length] in H. lia. }
  destruct o as [ts src dst amt|ts dst amt|ts dst amt]; cbn [id_safe] in Hsafe.
  - replace (startswith MOVE (id (MoveOp ts src dst amt))) with true
      by (symmetry; apply (startswith_app MOVE)).
    unfold id. specialize (Hlen MOVE [py_str ts; src; dst; str_of_int amt]).
    rewrite !filter_join_length, str_of_int_filter in Hlen.
    cbn [filter List.length] in Hlen.
    assert (Hpos : (0 < List.length (filter (fun c => Ascii.eqb c ID_SEPARATOR) (py_str ts))
                     + List.length (filter (fun c => Ascii.eqb c ID_SEPARATOR) src)
                     + List.length (filter (fun c => Ascii.eqb c ID_SEPARATOR) dst))%nat).
    { destruct (no_sep (py_str ts)) eqn:E1;
        [|apply no_sep_false_length in E1; lia].
      destruct (no_sep src) eqn:E2; [|apply no_sep_false_length in E2; lia].
      destruct (no_sep dst) eqn:E3; [discriminate|].
      apply no_sep_false_length in E3. lia. }
    destruct (tl (split_on ID_SEPARATOR _)) as [|a [|b [|c [|d [|e r]]]]];
      try reflexivity. cbn [List.length] in Hlen. lia.
  - replace (startswith MOVE (id (WithdrawOp ts dst amt))) with false
      by reflexivity.
    replace (startswith WITHDRAW (id (WithdrawOp ts dst amt))) with true
      by (symmetry; apply (startswith_app WITHDRAW)).
    unfold id. specialize (Hlen WITHDRAW [py_str ts; dst; str_of_int amt]).
    rewrite !filter_join_length, str_of_int_filter in Hlen.
    cbn [filter List.length] in Hlen.
    assert (Hpos : (0 < List.length (filter (fun c => Ascii.eqb c ID_SEPARATOR) (py_str ts))
                     + List.length (filter (fun c => Ascii.eqb c ID_SEPARATOR) dst))%nat).
    { destruct (no_sep (py_str ts)) eqn:E1;
        [|apply no_sep_false_length in E1; lia].
      destruct (no_sep dst) eqn:E3; [discriminate|].
      apply no_sep_false_length in E3. lia. }
    destruct (tl (split_on ID_SEPARATOR _)) as [|a [|b [|c [|d r]]]];
      try reflexivity. cbn [List.length] in Hlen. lia.
  - replace (startswith MOVE (id (DepositOp ts dst amt))) with false
      by reflexivity.
    replace (startswith WITHDRAW (id (DepositOp ts dst amt))) with false
      by reflexivity.
    replace (startswith DEPOSIT (id (DepositOp ts dst amt))) with true
      by (symmetry; apply (startswith_app DEPOSIT)).
    unfold id. specialize (Hlen DEPOSIT [py_str ts; dst; str_of_int amt]).
    rewrite !filter_join_length, str_of_int_filter in Hlen.
    cbn [filter List.length] in Hlen.
    assert (Hpos : (0 < List.length (filter (fun c => Ascii.eqb c ID_SEPARATOR) (py_str ts))
                     + List.length (filter (fun c => Ascii.eqb c ID_SEPARATOR) dst))%nat).
    { destruct (no_sep (py_str ts)) eqn:E1;
        [|apply no_sep_false_length in E1; lia].
      destruct (no_sep dst) eqn:E3; [discriminate|].
      apply no_sep_false_length in E3. lia. }
    destruct (tl (split_on ID_SEPARATOR _)) as [|a [|b [|c [|d r]]]];
      try reflexivity. cbn [List.length] in Hlen. lia.
Qed.

(** X14: two operations whose timestamps and accounts are free of
    [ID_SEPARATOR] have the same id only when they are of the same class
    and have the same accounts, the same amount and timestamps that [str]
    writes alike. *)
Theorem id_injective (o1 o2 : op) :
  id_safe o1 = true -> id_safe o2 = true -> id o1 = id o2 ->
  with_text_ts o1 = with_text_ts o2.
Proof.
  intros H1 H2 H.
  pose proof (parse_op_from_id_id o1 H1) as P1.
  pose proof (parse_op_from_id_id o2 H2) as P2.
  rewrite H, P2 in P1. now injection P1.
Qed.

Lemma id_injective_witness :
  with_text_ts (DepositOp (PyInt 1) (lit "A") 5)
  = with_text_ts (DepositOp (PyStr (lit "1")) (lit "A") 5).
Proof.
  apply (id_injective (DepositOp (PyInt 1) (lit "A") 5)
           (DepositOp (PyStr (lit "1")) (lit "A") 5)); reflexivity.
Defined.
(** ** recover, on any journal of whole lines *)

(** [recover] on a journal whose last [BEGIN] line is that of an operation
    not committed in the lines before it: these lines and the [BEGIN] are
    kept and rewritten, whatever follows is dropped, and the body of the
    operation runs. *)
Lemma recover_lines (o : op) (fs : files) (pre post : list str) :
  lines_of (store fs) = pre ++ line (BeginLogLine (id o)) :: post ->
  Forall whole pre ->
  forallb (fun x => negb (startswith BEGIN x)) post = true ->
  wf_op o = true -> id_safe o = true ->
  committed_scan (id o) false pre = false ->
  let rd := balance pre in
  let kept := pre ++ [line (BeginLogLine (id o))] in
  recover fs
  = (snd (body_records o rd),
     logged (mkFiles (rewritten kept) None) (fst (body_records o rd))).
Proof.
  intros Hlines Hpre Hpost Hwf Hsafe Hc rd kept.
  pose proof (id_token o Hwf) as Hid.
  pose proof (wf_op_id_line o Hwf) as Hb.
  assert (Hkept : Forall whole kept).
  { apply Forall_app. split; [exact Hpre|].
    constructor; [now apply line_whole|constructor]. }
  unfold recover.
  rewrite (bind_run _ _ _ _ _
             (recover_truncate_run _ _ _ _ Hlines (startswith_app BEGIN _) Hpost)).
  fold kept. unfold kept at 1. rewrite begin_oid_last by exact Hid.
  rewrite (bind_run _ _ _ _ _ (lift_run _ _)).
  rewrite parse_op_from_id_id by exact Hsafe.
  rewrite (bind_run _ _ _ _ _ (lift_run _ _)).
  rewrite handle_run;
    [|now apply ends_nl_rewritten|now rewrite wf_op_with_text_ts].
  cbn [store]. rewrite lines_of_rewritten by exact Hkept.
  rewrite id_with_text_ts.
  assert (Hid' : id o <> []) by now apply is_token_nonempty.
  rewrite committed_scan_spaced by exact Hid'.
  unfold kept at 1. rewrite committed_scan_app, Hc. cbn [orb].
  rewrite committed_scan_own_begin by exact Hid. cbn [committed_scan].
  cbv zeta. unfold handle_records, begin_records. cbn [app].
  rewrite body_records_with_text_ts.
  rewrite (body_records_ext o (balance (spaced kept)) rd); [reflexivity|].
  intros a. unfold balance, rd. rewrite read_scan_spaced.
  unfold kept. rewrite rev_unit. apply read_scan_begin.
Qed.

Lemma no_begin_spaced_tail (recs : list logline) :
  forallb (fun l => negb (is_begin l)) recs = true ->
  forallb (fun x => negb (startswith BEGIN x)) (NEWLINE :: map line recs) = true.
Proof. intros H. cbn [forallb]. now rewrite no_begin_lines. Qed.

(** X15: a journal with no line that starts with [BEGIN], the empty one
    among them, is left as it is by [recover], which returns at once. *)
Theorem recover_without_begin (fs : files) :
  forallb (fun x => negb (startswith BEGIN x)) (lines_of (store fs)) = true ->
  recover fs = (Ok tt, fs).
Proof.
  intros H.
  assert (Ht : recover_truncate fs = (Ok None, fs)).
  { unfold recover_truncate.
    rewrite (bind_run _ _ _ _ _ (readlines_run fs)).
    now rewrite last_begin_idx_none. }
  unfold recover. now rewrite (bind_run _ _ _ _ _ Ht).
Qed.

Lemma recover_without_begin_witness :
  recover (journal [WriteLogLine (lit "A") 5; CommitLogLine None])
  = (Ok tt, journal [WriteLogLine (lit "A") 5; CommitLogLine None]).
Proof.
  apply (recover_without_begin (journal [WriteLogLine (lit "A") 5; CommitLogLine None])).
  reflexivity.
Defined.



(** X17: [recover] can be run again. On a journal of whole lines whose
    last [BEGIN] line is that of an operation not committed before it,
    when [recover] ends, a second [recover] ends too and [read] returns
    for every account what it returned after the first; the journal has
    the lines kept by the first [recover] spaced out once more, and the
    same transaction after them. *)
Theorem recover_twice (o : op) (fs : files) (pre post : list str) :
  ends_nl (store fs) = true ->
  lines_of (store fs) = pre ++ line (BeginLogLine (id o)) :: post ->
  forallb (fun x => negb (startswith BEGIN x)) post = true ->
  wf_op o = true -> id_safe o = true ->
  committed_scan (id o) false pre = false ->
  eval recover fs = Ok tt ->
  let once := exec recover fs in
  let twice := exec recover once in
  eval recover once = Ok tt
  /\ (forall a, eval (read a) twice = eval (read a) once)
  /\ exists body,
       lines_of (store once)
       = spaced (pre ++ [line (BeginLogLine (id o))]) ++ body
       /\ lines_of (store twice)
          = spaced (spaced pre ++ [line (BeginLogLine (id o))]) ++ body.
Proof.
  intros Hs Hlines Hpost Hwf Hsafe Hc Hok once twice.
  assert (Hpre : Forall whole pre).
  { pose proof (lines_of_whole _ Hs) as H. rewrite Hlines in H.
    now apply Forall_app in H as [H _]. }
  set (B := line (BeginLogLine (id o))) in *.
  set (rd := balance pre).
  set (body := fst (body_records o rd)).
  assert (Hbody : forallb wf_line body = true) by now apply body_records_wf.
  pose proof (recover_lines o fs pre post Hlines Hpre Hpost Hwf Hsafe Hc) as R1.
  cbv zeta in R1. fold rd B body in R1.
  assert (Hbok : snd (body_records o rd) = Ok tt).
  { unfold eval in Hok. now rewrite R1 in Hok. }
  assert (Hkept : Forall whole (pre ++ [B])).
  { apply Forall_app. split; [exact Hpre|].
    constructor; [now apply line_whole, wf_op_id_line|constructor]. }
  assert (Hkept2 : Forall whole (spaced pre ++ [B])).
  { apply Forall_app. split; [now apply spaced_whole|].
    constructor; [now apply line_whole, wf_op_id_line|constructor]. }
  assert (Honce : once = logged (mkFiles (rewritten (pre ++ [B])) None) body).
  { subst once. unfold exec. now rewrite R1. }
  assert (Hl1 : lines_of (store once) = spaced pre ++ B :: NEWLINE :: map line body).
  { rewrite Honce, lines_of_logged; [|now apply ends_nl_rewritten|exact Hbody].
    cbn [store]. rewrite lines_of_rewritten by exact Hkept.
    rewrite spaced_app, <- app_assoc. reflexivity. }
  assert (Hext : forall a, balance (spaced pre) a = rd a).
  { intros a. unfold balance, rd. apply read_scan_spaced. }
  pose proof (recover_lines o once (spaced pre) (NEWLINE :: map line body) Hl1
                (spaced_whole _ Hpre)
                (no_begin_spaced_tail _ (body_records_no_begin o rd))
                Hwf Hsafe) as R2.
  rewrite committed_scan_spaced in R2 by now apply is_token_nonempty, id_token.
  specialize (R2 Hc). cbv zeta in R2. fold B in R2.
  rewrite (body_records_ext o _ rd Hext) in R2. fold body in R2.
  clearbody once. subst twice. unfold eval, exec. rewrite R2. cbn [fst snd].
  split; [exact Hbok|]. split.
  - intros a. change (fst (read a ?x)) with (eval (read a) x).
    rewrite !eval_read. unfold balance at 2. rewrite Hl1.
    rewrite balance_logged; [|now apply ends_nl_rewritten|exact Hbody].
    cbn [store]. rewrite lines_of_rewritten by exact Hkept2.
    replace (spaced pre ++ B :: NEWLINE :: map line body)
      with (spaced (pre ++ [B]) ++ map line body)
      by (rewrite spaced_app, <- app_assoc; reflexivity).
    rewrite rev_app_distr. apply read_scan_app_congr.
    rewrite !read_scan_spaced, !rev_unit.
    apply read_scan_cons_congr. now rewrite read_scan_spaced.
  - exists (map line body). split.
    + rewrite Hl1, spaced_app, <- app_assoc. reflexivity.
    + rewrite lines_of_logged; [|now apply ends_nl_rewritten|exact Hbody].
      cbn [store]. now rewrite lines_of_rewritten by exact Hkept2.
Qed.

Lemma recover_twice_witness :
  let o := DepositOp (PyInt 2) (lit "A") 10 in
  let fs := journal [WriteLogLine (lit "A") 5; CommitLogLine None;
                     BeginLogLine (id o); ReadLogLine (lit "A") 5] in
  let once := exec recover fs in
  let twice := exec recover once in
  eval recover once = Ok tt
  /\ (forall a, eval (read a) twice = eval (read a) once)
  /\ exists body,
       lines_of (store once)
       = spaced (map line [WriteLogLine (lit "A") 5; CommitLogLine None]
                 ++ [line (BeginLogLine (id o))]) ++ body
       /\ lines_of (store twice)
          = spaced (spaced (map line [WriteLogLine (lit "A") 5; CommitLogLine None])
                    ++ [line (BeginLogLine (id o))]) ++ body.
Proof.
  intros o fs.
  apply (recover_twice o fs
           (map line [WriteLogLine (lit "A") 5; CommitLogLine None])
           (map line [ReadLogLine (lit "A") 5])); reflexivity.
Defined.
(** ** Errors *)

(** X18: when the last line that starts with [BEGIN] has no second field
    ([IndexError]), or its second field is not the id of an operation
    ([ValueError] for an unknown kind or an amount that is no integer,
    [TypeError] for a wrong number of parts), [recover] raises: but by
    then it has rewritten the journal, and the lines after that [BEGIN]
    are gone. *)
Theorem recover_raises_after_truncating
    (fs : files) (pre : list str) (l : str) (post : list str) (e : exn) :
  lines_of (store fs) = pre ++ l :: post ->
  startswith BEGIN l = true ->
  forallb (fun x => negb (startswith BEGIN x)) post = true ->
  match nth_error (split l) 1 with
  | Some oid => parse_op_from_id oid = Raise e
  | None => e = IndexError
  end ->
  recover fs = (Raise e, mkFiles (rewritten (pre ++ [l])) None).
Proof.
  intros Hlines Hl Hpost He. unfold recover.
  rewrite (bind_run _ _ _ _ _ (recover_truncate_run _ _ _ _ Hlines Hl Hpost)).
  assert (Hb : begin_oid (pre ++ [l]) (List.length pre)
               = match nth_error (split l) 1 with
                 | Some oid => Ok oid
                 | None => Raise IndexError
                 end).
  { unfold begin_oid. now rewrite nth_error_app2, Nat.sub_diag by lia. }
  rewrite Hb. destruct (nth_error (split l) 1) as [oid|].
  - rewrite (bind_run _ _ _ _ _ (lift_run _ _)), He. reflexivity.
  - subst e. reflexivity.
Qed.

Lemma recover_raises_after_truncating_witness :
  let fs := mkFiles (line (WriteLogLine (lit "A") 5) ++ BEGIN ++ NEWLINE
                     ++ line (WriteLogLine (lit "A") 7)) None in
  recover fs
  = (Raise IndexError,
     mkFiles (rewritten ([line (WriteLogLine (lit "A") 5)] ++ [BEGIN ++ NEWLINE])) None).
Proof.
  intros fs.
  apply (recover_raises_after_truncating fs [line (WriteLogLine (lit "A") 5)]
           (BEGIN ++ NEWLINE) [line (WriteLogLine (lit "A") 7)] IndexError);
    reflexivity.
Defined.

Lemma read_scan_skip_all (a : str) (xs rest : list str) :
  forallb (fun x => negb (startswith WRITE x)) xs = true ->
  read_scan a (rev xs ++ rest) = read_scan a rest.
Proof.
  revert rest. induction xs as [|x xs IH]; intros rest H; [reflexivity|].
  cbn [forallb] in H. apply andb_true_iff in H as [Hx Hxs].
  apply negb_true_iff in Hx.
  cbn [rev]. rewrite <- app_assoc. cbn [app].
  rewrite IH by exact Hxs. now apply read_scan_skip.
Qed.

(** X19: [read] unpacks every [WRITE] line it meets into three fields.
    When the last line of the journal that starts with [WRITE] does not
    split into three, as the line written for an account with a space in
    its name, [read] raises [ValueError] for every account. *)
Theorem read_raises_on_malformed_write
    (fs : files) (pre : list str) (l : str) (post : list str) (a : str) :
  lines_of (store fs) = pre ++ l :: post ->
  startswith WRITE l = true ->
  List.length (split l) <> 3%nat ->
  forallb (fun x => negb (startswith WRITE x)) post = true ->
  eval (read a) fs = Raise ValueError.
Proof.
  intros Hlines Hl Hlen Hpost. rewrite eval_read. unfold balance.
  rewrite Hlines, rev_app_distr. cbn [rev]. rewrite <- app_assoc. cbn [app].
  rewrite read_scan_skip_all by exact Hpost.
  rewrite read_scan_cons, Hl.
  destruct (split l) as [|x [|y [|z [|w r]]]]; try reflexivity.
  now contradiction Hlen.
Qed.

Lemma read_raises_on_malformed_write_witness :
  let o := DepositOp (PyInt 1) (lit "my account") 5 in
  let fs := exec (handle o true) DataStore_init in
  eval (handle o true) DataStore_init = Ok tt
  /\ eval (read (lit "A")) fs = Raise ValueError.
Proof.
  intros o fs. split; [reflexivity|].
  apply (read_raises_on_malformed_write fs
           [line (BeginLogLine (id o)); line (ReadLogLine (lit "my account") 0)]
           (line (WriteLogLine (lit "my account") 5))
           [line (CommitLogLine None)] (lit "A"));
    [reflexivity|reflexivity|discriminate|reflexivity].
Defined.

(** X20: when the first [read] of [handle()] raises, the [BEGIN] has
    been logged already: the exception leaves the journal with a
    transaction that is open, and nothing else of it. *)
Theorem handle_raises_after_begin (o : op) (fs : files) (e : exn) :
  ends_nl (store fs) = true -> wf_op o = true ->
  eval (already_committed o) fs = Ok false ->
  eval (read (first_read o)) fs = Raise e ->
  handle o true fs = (Raise e, logged fs [BeginLogLine (id o)]).
Proof.
  intros Hs Hwf Hc He. apply eval_already_committed in Hc.
  rewrite eval_read in He.
  rewrite handle_run, Hc by assumption. cbv zeta.
  unfold handle_records, begin_records.
  destruct o as [ts src dst amt|ts dst amt|ts dst amt];
    cbn [first_read] in He; unfold body_records; rewrite He; reflexivity.
Qed.

Lemma handle_raises_after_begin_witness :
  let fs := mkFiles (WRITE ++ lit " A" ++ NEWLINE) None in
  let o := DepositOp (PyInt 1) (lit "A") 5 in
  handle o true fs = (Raise ValueError, logged fs [BeginLogLine (id o)]).
Proof.
  intros fs o.
  apply (handle_raises_after_begin o fs ValueError); reflexivity.
Defined.

(** X21: what [parse_op_from_id] makes of an id of a kind and three or
    four parts free of [ID_SEPARATOR], the last one of at most 640
    characters, which is below every bound on digits the interpreter can
    be set to: the operation of that kind with the parts for timestamp
    and accounts and [int] of the last part for amount, [ValueError] when
    the last part is no integer; and [ValueError] for a text that starts
    with none of the three kinds. *)
Theorem parse_op_from_id_parts (ts src dst amt oid : str) :
  no_sep ts = true -> no_sep src = true -> no_sep dst = true ->
  no_sep amt = true -> (List.length amt <= 640)%nat ->
  startswith MOVE oid = false -> startswith WITHDRAW oid = false ->
  startswith DEPOSIT oid = false ->
  parse_op_from_id (join ID_SEPARATOR [MOVE; ts; src; dst; amt])
  = match int_of_str amt with
    | Some n => Ok (MoveOp (PyStr ts) src dst n)
    | None => Raise ValueError
    end
  /\ parse_op_from_id (join ID_SEPARATOR [WITHDRAW; ts; dst; amt])
     = match int_of_str amt with
       | Some n => Ok (WithdrawOp (PyStr ts) dst n)
       | None => Raise ValueError
       end
  /\ parse_op_from_id (join ID_SEPARATOR [DEPOSIT; ts; dst; amt])
     = match int_of_str amt with
       | Some n => Ok (DepositOp (PyStr ts) dst n)
       | None => Raise ValueError
       end
  /\ parse_op_from_id oid = Raise ValueError.
Proof.
  intros Hts Hsrc Hdst Hamt _ Hm Hw Hd. unfold parse_op_from_id.
  repeat split.
  - replace (startswith MOVE (join ID_SEPARATOR [MOVE; ts; src; dst; amt]))
      with true by (symmetry; apply (startswith_app MOVE)).
    rewrite split_on_join; [|easy|cbn [forallb]; now rewrite Hts, Hsrc, Hdst, Hamt].
    cbn [tl]. unfold MoveOp_init, py_int. now destruct (int_of_str amt).
  - replace (startswith MOVE (join ID_SEPARATOR [WITHDRAW; ts; dst; amt]))
      with false by reflexivity.
    replace (startswith WITHDRAW (join ID_SEPARATOR [WITHDRAW; ts; dst; amt]))
      with true by (symmetry; apply (startswith_app WITHDRAW)).
    rewrite split_on_join; [|easy|cbn [forallb]; now rewrite Hts, Hdst, Hamt].
    cbn [tl]. unfold WithdrawOp_init, py_int. now destruct (int_of_str amt).
  - replace (startswith MOVE (join ID_SEPARATOR [DEPOSIT; ts; dst; amt]))
      with false by reflexivity.
    replace (startswith WITHDRAW (join ID_SEPARATOR [DEPOSIT; ts; dst; amt]))
      with false by reflexivity.
    replace (startswith DEPOSIT (join ID_SEPARATOR [DEPOSIT; ts; dst; amt]))
      with true by (symmetry; apply (startswith_app DEPOSIT)).
    rewrite split_on_join; [|easy|cbn [forallb]; now rewrite Hts, Hdst, Hamt].
    cbn [tl]. unfold DepositOp_init, py_int. now destruct (int_of_str amt).
  - now rewrite Hm, Hw, Hd.
Qed.

Lemma parse_op_from_id_parts_witness :
  parse_op_from_id (lit "mov_1_A_B_+1")
  = Ok (MoveOp (PyStr (lit "1")) (lit "A") (lit "B") 1)
  /\ parse_op_from_id (lit "wit_1_B_+1")
     = Ok (WithdrawOp (PyStr (lit "1")) (lit "B") 1)
  /\ parse_op_from_id (lit "dep_1_B_+1")
     = Ok (DepositOp (PyStr (lit "1")) (lit "B") 1)
  /\ parse_op_from_id (lit "xfer_1_A_5") = Raise ValueError.
Proof.
  apply (parse_op_from_id_parts (lit "1") (lit "A") (lit "B") (lit "+1")
           (lit "xfer_1_A_5")); try reflexivity.
  simpl. lia.
Defined.

(** A last part that starts with a unit separator, or is empty, is no
    integer for [int]; one between no-break spaces is. *)
Example parse_op_from_id_amounts :
  parse_op_from_id (lit "dep_1_A_" ++ [ascii_of_nat 31; "5"%char])
  = Raise ValueError
  /\ parse_op_from_id (lit "dep_1_A_") = Raise ValueError
  /\ parse_op_from_id
       (lit "dep_1_A_" ++ [ascii_of_nat 160; "5"%char; ascii_of_nat 160])
     = Ok (DepositOp (PyStr (lit "1")) (lit "A") 5).
Proof. repeat split; reflexivity. Qed.
(** ** The effect of one handle *)

(** X22: the effect of [handle()] on the balances of a readable journal:
    when the guard lets the operation pass and the operation is a deposit
    or the balance covers its amount, [read] moves by the signed amount of
    the operation for each account; in every other case [read] returns
    what it returned. *)
Theorem handle_effect_on_balances (o : op) (a : str) (z : Z) (done : bool)
    (fs : files) :
  readable fs -> wf_op o = true -> eval (read a) fs = Ok z ->
  eval (already_committed o) fs = Ok done ->
  eval (read a) (exec (handle o true) fs)
  = Ok (if negb done && covered o fs then z + delta o a else z).
Proof.
  intros Hfs Hwf Hz Hdone.
  destruct (handle_step o fs Hfs Hwf) as (_ & _ & Hbal).
  rewrite (Hbal a z Hz), (success_commit_handle o fs Hfs Hwf).
  rewrite (eval_already_committed _ _ _ Hdone).
  destruct (negb done && covered o fs); [reflexivity|now rewrite Z.add_0_r].
Qed.

Lemma handle_effect_on_balances_witness :
  eval (read (lit "A"))
    (exec (handle (DepositOp (PyInt 1) (lit "A") 5) true) DataStore_init)
  = Ok (0 + 5).
Proof.
  apply (handle_effect_on_balances (DepositOp (PyInt 1) (lit "A") 5) (lit "A") 0
           false DataStore_init); try reflexivity.
  split; [reflexivity|]. intros a. exists 0. reflexivity.
Defined.

(** X23: the rewriting step of [recover], on a journal of whole lines
    with a line that starts with [BEGIN]: the journal then reads as the
    lines up to the last such line, each followed by an empty line, and
    [read] returns what it returns on the journal cut after that line. *)
Theorem recover_truncate_effect
    (fs : files) (pre : list str) (l : str) (post : list str) (a : str) :
  ends_nl (store fs) = true ->
  lines_of (store fs) = pre ++ l :: post ->
  startswith BEGIN l = true ->
  forallb (fun x => negb (startswith BEGIN x)) post = true ->
  let fs' := exec recover_truncate fs in
  lines_of (store fs') = spaced (pre ++ [l])
  /\ backup fs' = None
  /\ eval (read a) fs' = balance (pre ++ [l]) a.
Proof.
  intros Hs Hlines Hl Hpost fs'.
  assert (Hkept : Forall whole (pre ++ [l])).
  { pose proof (lines_of_whole _ Hs) as H. rewrite Hlines in H.
    apply Forall_app in H as [Hp Hr]. apply Forall_app. split; [exact Hp|].
    constructor; [now inversion Hr|constructor]. }
  subst fs'. unfold exec.
  rewrite (recover_truncate_run _ _ _ _ Hlines Hl Hpost). cbn [snd store backup].
  split; [now apply lines_of_rewritten|]. split; [reflexivity|].
  rewrite eval_read. cbn [store]. rewrite lines_of_rewritten by exact Hkept.
  apply read_scan_spaced.
Qed.

Lemma recover_truncate_effect_witness :
  let fs := journal [WriteLogLine (lit "A") 5; CommitLogLine None;
                     BeginLogLine (lit "dep_2_A_10"); WriteLogLine (lit "A") 15] in
  let fs' := exec recover_truncate fs in
  lines_of (store fs')
  = spaced (map line [WriteLogLine (lit "A") 5; CommitLogLine None]
            ++ [line (BeginLogLine (lit "dep_2_A_10"))])
  /\ backup fs' = None
  /\ eval (read (lit "A")) fs'
     = balance (map line [WriteLogLine (lit "A") 5; CommitLogLine None]
                ++ [line (BeginLogLine (lit "dep_2_A_10"))]) (lit "A").
Proof.
  intros fs.
  apply (recover_truncate_effect fs
           (map line [WriteLogLine (lit "A") 5; CommitLogLine None])
           (line (BeginLogLine (lit "dep_2_A_10")))
           [line (WriteLogLine (lit "A") 15)] (lit "A")); reflexivity.
Defined.

Lemma existsb_commit_last (xs : list str) :
  existsb is_commit_line (xs ++ [line (CommitLogLine None)]) = true.
Proof.
  rewrite existsb_app. cbn [existsb]. unfold is_commit_line at 2.
  change (strip (line (CommitLogLine None))) with COMMIT.
  rewrite str_eqb_refl. cbn [orb]. apply orb_true_r.
Qed.

(** X24: a transaction closed with the error [COMMIT] is taken for
    committed as soon as any operation after it logs a plain [COMMIT]:
    when [handle()] of an operation that the balance does not cover is
    followed by [handle()] of an operation that passes the guard and is
    covered, [already_committed] answers [True] for the first, and its
    [handle()] does nothing from then on. *)
Theorem failed_operation_sealed_by_next_commit (o1 o2 : op) (fs : files) :
  readable fs -> wf_op o1 = true -> wf_op o2 = true ->
  eval (already_committed o1) fs = Ok false -> covered o1 fs = false ->
  let fs1 := exec (handle o1 true) fs in
  eval (already_committed o2) fs1 = Ok false -> covered o2 fs1 = true ->
  let fs2 := exec (handle o2 true) fs1 in
  eval (already_committed o1) fs1 = Ok false
  /\ eval (already_committed o1) fs2 = Ok true
  /\ handle o1 true fs2 = (Ok tt, fs2).
Proof.
  intros Hfs Hwf1 Hwf2 Hc1 Hcov1 fs1 Hc2 Hcov2 fs2.
  destruct (handle_step o1 fs Hfs Hwf1) as (Hok1 & Hfs1 & _). fold fs1 in Hfs1.
  destruct (handle_step o2 fs1 Hfs1 Hwf2) as (Hok2 & Hfs2 & _). fold fs2 in Hfs2.
  pose proof (success_commit_handle o1 fs Hfs Hwf1) as Hs1. fold fs1 in Hs1.
  rewrite Hcov1, andb_false_r in Hs1.
  pose proof (success_commit_handle o2 fs1 Hfs1 Hwf2) as Hs2. fold fs2 in Hs2.
  rewrite (eval_already_committed _ _ _ Hc2), Hcov2 in Hs2. cbn in Hs2.
  destruct Hfs as [Hns _]. destruct Hfs1 as [Hns1 _].
  destruct (handle_again o1 fs Hns Hwf1 Hok1) as [_ Hagain].
  fold fs1 in Hagain. destruct (Hagain Hc1 Hs1) as (Hc1' & _ & _).
  split; [exact Hc1'|].
  apply eval_already_committed in Hc1, Hc2.
  (* the lines of the two runs *)
  assert (Hl1 : exists rest1,
             lines_of (store fs1)
             = lines_of (store fs) ++ line (BeginLogLine (id o1)) :: rest1).
  { subst fs1. unfold exec. rewrite handle_run, Hc1 by assumption.
    cbv zeta. cbn [snd].
    rewrite lines_of_logged by (try assumption; now apply handle_records_wf).
    unfold handle_records, begin_records. cbn [app map]. now eexists. }
  destruct Hl1 as [rest1 Hl1].
  assert (Hl2 : exists xs,
             lines_of (store fs2)
             = lines_of (store fs1) ++ xs ++ [line (CommitLogLine None)]).
  { revert Hs2 Hok2. subst fs2. unfold eval, exec.
    rewrite (handle_run o2 true fs1 Hns1 Hwf2), Hc2. cbv zeta. cbn [fst snd].
    intros Hs2 Hok2.
    pose proof (handle_records_wf o2 true (balance (lines_of (store fs1))) Hwf2) as Hr.
    rewrite success_commit_logged in Hs2 by exact Hr.
    rewrite lines_of_logged by assumption.
    destruct (rev (handle_records o2 true (balance (lines_of (store fs1)))))
      as [|[oid|d n|d n|[e|]] r] eqn:E; try discriminate.
    apply (f_equal (@rev logline)) in E. rewrite rev_involutive in E.
    rewrite E. cbn [rev]. rewrite map_app. cbn [map]. now eexists. }
  destruct Hl2 as [xs Hl2].
  assert (Hc : committed_scan (id o1) false (lines_of (store fs2)) = true).
  { rewrite Hl2, Hl1, <- !app_assoc. cbn [app].
    rewrite committed_scan_app, Hc1. cbn [orb].
    rewrite committed_scan_own_begin by now apply id_token.
    rewrite committed_scan_found, app_assoc. apply existsb_commit_last. }
  split.
  - unfold eval. rewrite already_committed_run. cbn [fst]. now rewrite Hc.
  - destruct Hfs2 as [Hns2 _]. now rewrite handle_run, Hc.
Qed.

Lemma failed_operation_sealed_by_next_commit_witness :
  let o1 := WithdrawOp (PyInt 3) (lit "A") 100 in
  let o2 := DepositOp (PyInt 4) (lit "B") 1 in
  let fs1 := exec (handle o1 true) DataStore_init in
  let fs2 := exec (handle o2 true) fs1 in
  eval (already_committed o1) fs1 = Ok false
  /\ eval (already_committed o1) fs2 = Ok true
  /\ handle o1 true fs2 = (Ok tt, fs2).
Proof.
  intros o1 o2.
  apply (failed_operation_sealed_by_next_commit o1 o2 DataStore_init);
    try reflexivity.
  split; [reflexivity|]. intros a. exists 0. reflexivity.
Defined.
